(** * golden: the frame-driven synchronisation layer

    A shallow embedding of the TypeScript state layer of the game
    (src/lib/core): grid reconstruction, the user-event buffer, the
    triplets slice, the letter-resolution helpers and the frame loop of
    [createGameState].

    JavaScript numbers are modelled as [Z] (the engine hands out integer
    codes, indices and millisecond stamps), [undefined]/[null] as [None],
    a plain object used as a map with numeric keys as [gmap Z _], and a
    thrown exception as the [Throw] completion of a small monad that also
    threads the mutable state and logs the calls that leave the module. *)

From stdpp Require Import base option list gmap strings pretty.
From Stdlib Require Import ZArith Lia.

Local Open Scope Z_scope.

(** ** Values shared with the wasm module *)

(** Modelled from the spec: the wasm class [Position] (its declaration
    is generated code outside src/): an integer pair. *)
Record Position := mkPosition { pos_x : Z; pos_y : Z }.

(** Modelled from the spec: the wasm enum [CellPathingStatus]. *)
Inductive CellPathingStatus := PathingNone | Path | Blocked.

(** Modelled from the spec: the wasm class [Cell] (imported as
    [WasmCell]); the sources read [position], [letter] and
    [pathing_status] from it. *)
Record WasmCell := mkCell {
  position : Position;
  letter : Z;
  pathing_status : CellPathingStatus
}.

(** Modelled from the spec: the wasm class [FoundWord], a sequence of
    letter codes with its score.  This layer only stores the list. *)
Record FoundWord := mkFoundWord { word_letters : list Z; word_score : Z }.

#[global] Instance Position_eq_dec : EqDecision Position.
Proof. solve_decision. Defined.

(** ** Completions, and a monad for state, outgoing calls and throws *)

(** What a JavaScript [throw] can carry here: [new Error(message)], the
    [TypeError] of a property read on [undefined], or whatever value the
    wasm module raises. *)
Inductive JsException :=
| JsError (message : string)
| JsTypeError
| WasmFailure (payload : Z).

Inductive completion (A : Type) :=
| Normal (value : A)
| Throw (e : JsException).
Arguments Normal {A} value.
Arguments Throw {A} e.

(** A computation over mutable state [S] that logs events [Ev].  The
    state and the log reached when an exception is thrown are kept:
    JavaScript does not roll assignments back. *)
Definition M (S Ev A : Type) : Type := S → S * list Ev * completion A.

Section MonadOps.
Context {S Ev : Type}.

Definition ret {A} (a : A) : M S Ev A := λ s, (s, [], Normal a).

Definition bind {A B} (m : M S Ev A) (k : A → M S Ev B) : M S Ev B :=
  λ s, match m s with
       | (s1, t1, Normal a) =>
           match k a s1 with (s2, t2, r) => (s2, t1 ++ t2, r) end
       | (s1, t1, Throw e) => (s1, t1, Throw e)
       end.

Definition get : M S Ev S := λ s, (s, [], Normal s).
Definition put (s' : S) : M S Ev unit := λ _, (s', [], Normal tt).
Definition modify (f : S → S) : M S Ev unit := λ s, (f s, [], Normal tt).
Definition emit (ev : Ev) : M S Ev unit := λ s, (s, [ev], Normal tt).
Definition throw {A} (e : JsException) : M S Ev A := λ s, (s, [], Throw e).

(** [Array.prototype.map] with an effectful callback: elements are
    visited left to right and the first throw abandons the rest. *)
Fixpoint arrayMap {A B} (f : A → M S Ev B) (l : list A) : M S Ev (list B) :=
  match l with
  | [] => ret []
  | a :: rest =>
      bind (f a) (λ b, bind (arrayMap f rest) (λ bs, ret (b :: bs)))
  end.

End MonadOps.

#[global] Instance M_ret {S Ev} : MRet (M S Ev) := @ret S Ev.
#[global] Instance M_bind {S Ev} : MBind (M S Ev) := λ A B k m, bind m k.

(** Projections of a finished run. *)
Definition finalState {S Ev A} (r : S * list Ev * completion A) : S := r.1.1.
Definition callLog {S Ev A} (r : S * list Ev * completion A) : list Ev := r.1.2.
Definition outcome {S Ev A} (r : S * list Ev * completion A) : completion A := r.2.

(** ** Grid reconstruction (src/lib/core/seed.ts, [transformToGrid]) *)

Module GridCore.

(** [interface Grid { [x: number]: { [y: number]: WasmCell } }] *)
Abbreviation Grid := (gmap Z (gmap Z WasmCell)).

(** [if (!cells[x]) { cells[x] = {}; }]: a row object is always truthy,
    so the test only succeeds when the key is absent. *)
Definition ensureRow (cells : Grid) (x : Z) : Grid :=
  match cells !! x with
  | Some _ => cells
  | None => <[x := ∅]> cells
  end.

(** [cells[x][y] = rawCell]: the row found under [x] is updated in
    place.  The row exists when this runs, because [ensureRow] ran just
    before; were it absent, nothing would be stored. *)
Definition assignCell (cells : Grid) (x y : Z) (rawCell : WasmCell) : Grid :=
  match cells !! x with
  | Some row => <[x := <[y := rawCell]> row]> cells
  | None => cells
  end.

(** The body of the reducer. *)
Definition reducer (cells : Grid) (rawCell : WasmCell) : Grid :=
  let x := pos_x (position rawCell) in
  let y := pos_y (position rawCell) in
  let cells := ensureRow cells x in
  assignCell cells x y rawCell.

(** [raw.reduce(reducer, {})] *)
Definition transformToGrid (raw : list WasmCell) : Grid :=
  fold_left reducer raw ∅.

(** Reading [grid[x][y]]; absent when either level is. *)
Definition cellAt (g : Grid) (x y : Z) : option WasmCell :=
  g !! x ≫= λ row, row !! y.

(** The last record of a list that sits at a given position. *)
Definition lastAt (raw : list WasmCell) (x y : Z) : option WasmCell :=
  find (λ c, bool_decide (position c = mkPosition x y)) (rev raw).

End GridCore.

(** ** The user-event buffer (src/lib/core/state/userEvents.svelte.ts) *)

Module UserEvents.

(** The two [$state] cells closed over by [createUserEventsState]. *)
Record UserEventsState := mkUserEvents {
  userClicks : list Position;
  lastHovered : option Position
}.

(** [let userClicks = $state([]); let lastHovered = $state(null);] *)
Definition createUserEventsState : UserEventsState :=
  {| userClicks := []; lastHovered := None |}.

(** [userClicks = [...userClicks, position]] *)
Definition click (p : Position) (s : UserEventsState) : UserEventsState :=
  {| userClicks := userClicks s ++ [p]; lastHovered := lastHovered s |}.

(** [lastHovered = position] *)
Definition hover (p : Position) (s : UserEventsState) : UserEventsState :=
  {| userClicks := userClicks s; lastHovered := Some p |}.

(** [const clicks = userClicks; userClicks = []; return clicks;] *)
Definition extractUserClicks (s : UserEventsState)
  : list Position * UserEventsState :=
  (userClicks s, {| userClicks := []; lastHovered := lastHovered s |}).

(** What the outside can do with the buffer, for stating properties
    over arbitrary interleavings. *)
Inductive Op :=
| OpClick (p : Position)
| OpHover (p : Position)
| OpExtract
| OpPeekHover.

Definition isHover (o : Op) : bool :=
  match o with OpHover _ => true | _ => false end.

Definition isExtract (o : Op) : bool :=
  match o with OpExtract => true | _ => false end.

Definition step (s : UserEventsState) (o : Op) : UserEventsState :=
  match o with
  | OpClick p => click p s
  | OpHover p => hover p s
  | OpExtract => (extractUserClicks s).2
  | OpPeekHover => s
  end.

Definition run (ops : list Op) (s : UserEventsState) : UserEventsState :=
  fold_left step ops s.

(** The positions clicked in a run, in arrival order. *)
Definition clicksOf (ops : list Op) : list Position :=
  omap (λ o, match o with OpClick p => Some p | _ => None end) ops.

(** Runs without a drain, and runs without a hover. *)
Definition noExtract (ops : list Op) : bool :=
  forallb (λ o, negb (isExtract o)) ops.

Definition noHover (ops : list Op) : bool :=
  forallb (λ o, negb (isHover o)) ops.

End UserEvents.

(** ** The triplets slice (src/lib/core/state/triplets.svelte.ts) *)

Module Triplets.

(** [interface Triplet].  A field is [undefined] when the raw array
    ends inside the group, since [rawTriplets[i + 1]] past the end is. *)
Record Triplet := mkTriplet {
  letter1 : option Z;
  letter2 : option Z;
  letter3 : option Z
}.

(** [array[i]] for an integer [i]: [undefined] outside [0 .. length-1]. *)
Definition arrayGet {A} (l : list A) (i : Z) : option A :=
  if bool_decide (i < 0) then None else l !! Z.to_nat i.

(** [array.slice(start)]: a negative start counts from the end, and the
    start is clamped to the array. *)
Definition arraySlice {A} (l : list A) (start : Z) : list A :=
  let len := Z.of_nat (length l) in
  let k := if bool_decide (start < 0) then Z.max (len + start) 0
           else Z.min start len in
  drop (Z.to_nat k) l.

(** [for (let i = 0; i < rawTriplets.length; i += 3) triplets.push(..)]:
    one triplet per started group of three. *)
Fixpoint groupTriplets (rawTriplets : list Z) : list Triplet :=
  match rawTriplets with
  | [] => []
  | a :: [] => [mkTriplet (Some a) None None]
  | a :: b :: [] => [mkTriplet (Some a) (Some b) None]
  | a :: b :: c :: rest =>
      mkTriplet (Some a) (Some b) (Some c) :: groupTriplets rest
  end.

(** The closure state: the fixed array and the [$state] index. *)
Record TripletsState := mkTriplets {
  triplets : list Triplet;
  currentIndex : Z
}.

Definition createTripletsState (rawTriplets : list Z) : TripletsState :=
  {| triplets := groupTriplets rawTriplets; currentIndex := 0 |}.

(** [get next() { return triplets[currentIndex]; }]: the getter has no
    [throw]; it completes normally with the element or [undefined]. *)
Definition next (s : TripletsState) : completion (option Triplet) :=
  Normal (arrayGet (triplets s) (currentIndex s)).

(** [get future() { return triplets.slice(currentIndex + 1); }] *)
Definition future (s : TripletsState) : completion (list Triplet) :=
  Normal (arraySlice (triplets s) (currentIndex s + 1)).

Definition numberOfRemainingLetters (s : TripletsState) : Z :=
  (Z.of_nat (length (triplets s)) - currentIndex s) * 3.

Definition total (s : TripletsState) : Z := Z.of_nat (length (triplets s)).

(** [updateIndex(newIndex) { currentIndex = newIndex; }] *)
Definition updateIndex (newIndex : Z) (s : TripletsState) : TripletsState :=
  {| triplets := triplets s; currentIndex := newIndex |}.

End Triplets.

(** ** Letter resolution (src/lib/core/state/letterTable.svelte.ts) *)

Module LetterTable.

(** Modelled from the spec: the wasm class [LettersTable], whose two
    lookups yield the character or score of a code, or nothing. *)
Record LettersTable := mkLettersTable {
  try_get_letter_char : Z → option string;
  try_get_letter_score : Z → option Z
}.

(** [interface LettersTableContext]: the two closures stored in the
    component context. *)
Record LettersTableContext := mkContext {
  ctx_getLetter : Z → option string;
  ctx_getScore : Z → option Z
}.

(** [interface Letter]; [char] and [score] hold whatever the table
    gave. *)
Record Letter := mkLetter {
  index : Z;
  char : option string;
  score : option Z
}.

(** Calls that reach the table. *)
Inductive TableCall :=
| GetLetterCall (index : Z)
| GetScoreCall (index : Z).

(** The ambient state is the context slot under
    [LETTERS_TABLE_CONTEXT_KEY]; it is empty until
    [initLettersTableContext] runs. *)
Abbreviation Svc := (M (option LettersTableContext) TableCall).

Definition initLettersTableContext (lettersTable : LettersTable) : Svc unit :=
  put (Some {| ctx_getLetter := try_get_letter_char lettersTable;
               ctx_getScore := try_get_letter_score lettersTable |}).

(** [getContext(LETTERS_TABLE_CONTEXT_KEY)] *)
Definition getContext : Svc (option LettersTableContext) := get.

(** [context.getLetter(index)]: a [TypeError] when [context] is
    [undefined]. *)
Definition callGetLetter (context : option LettersTableContext) (i : Z)
  : Svc (option string) :=
  match context with
  | None => throw JsTypeError
  | Some c => emit (GetLetterCall i);; mret (ctx_getLetter c i)
  end.

Definition callGetScore (context : option LettersTableContext) (i : Z)
  : Svc (option Z) :=
  match context with
  | None => throw JsTypeError
  | Some c => emit (GetScoreCall i);; mret (ctx_getScore c i)
  end.

(** The message of the error thrown by [getWord]. *)
Definition invalidLetterIndex (i : Z) : JsException :=
  JsError ("Invalid letter index in word: " +:+ pretty i).

Section WithSentinel.

(** Modelled from the spec: the wasm function [is_empty_cell], a pure
    test on the code. *)
Variable is_empty_cell : Z → bool.

Definition getLetter (i : Z) : Svc (option Letter) :=
  if is_empty_cell i then mret None
  else
    context ← getContext;
    c ← callGetLetter context i;
    s ← callGetScore context i;
    mret (Some {| index := i; char := c; score := s |}).

Definition getWord (letters : list Z) : Svc (list Letter) :=
  arrayMap (λ i,
    letter ← getLetter i;
    match letter with
    | None => throw (invalidLetterIndex i)
    | Some l => mret l
    end) letters.

End WithSentinel.

(** The first code of a word that the sentinel test accepts. *)
Definition firstEmpty (is_empty_cell : Z → bool) (letters : list Z)
  : option Z :=
  find is_empty_cell letters.

(** The table calls made for the codes of a word that come before its
    first empty code. *)
Fixpoint wordLog (is_empty_cell : Z → bool) (letters : list Z)
  : list TableCall :=
  match letters with
  | [] => []
  | i :: rest =>
      if is_empty_cell i then []
      else GetLetterCall i :: GetScoreCall i :: wordLog is_empty_cell rest
  end.

(** The context slot once [initLettersTableContext] has run. *)
Definition bound (lettersTable : LettersTable) : option LettersTableContext :=
  finalState (initLettersTableContext lettersTable None).

(** What [getLetter] builds for a non-empty code from a table. *)
Definition letterOf (lettersTable : LettersTable) (i : Z) : Letter :=
  {| index := i;
     char := try_get_letter_char lettersTable i;
     score := try_get_letter_score lettersTable i |}.

(** A sentinel test and two tables for concrete runs. *)
Definition zeroIsEmpty (i : Z) : bool := bool_decide (i = 0).

Definition emptyTable : LettersTable :=
  {| try_get_letter_char := λ _, None; try_get_letter_score := λ _, None |}.

Definition smallTable : LettersTable :=
  {| try_get_letter_char := λ i,
       if bool_decide (i = 5) then Some "e"%string
       else if bool_decide (i = 7) then Some "g"%string else None;
     try_get_letter_score := λ i,
       if bool_decide (i = 5) then Some 1
       else if bool_decide (i = 7) then Some 2 else None |}.

End LetterTable.

(** ** The remaining slices (clock, score, found words, golden word) *)

Module Slices.

(** [createClockState(maxMs)] *)
Record ClockState := mkClock { clockMax : Z; clockRemaining : Z }.

Definition createClockState (maxMs : Z) : ClockState :=
  {| clockMax := maxMs; clockRemaining := maxMs |}.

Definition clockUpdate (newRemaining : Z) (c : ClockState) : ClockState :=
  {| clockMax := clockMax c; clockRemaining := newRemaining |}.

(** [createGoldenState(golden, goldenWordScore)] *)
Record GoldenState := mkGolden { golden : list Z; goldenWordScore : Z }.

(** [golden.includes(letter)] *)
Definition isGolden (g : GoldenState) (l : Z) : bool :=
  bool_decide (l ∈ golden g).

End Slices.

(** ** The frame loop ([createGameState] and its [tick]) *)

Module Game.
Import GridCore UserEvents Triplets Slices.

(** Modelled from the spec: the snapshot returned by the engine's step,
    with the three parts [tick] reads from it. *)
Record Snapshot := mkSnapshot {
  clock_remaining_ms : Z;
  snapshot_grid : list WasmCell;
  found_words : list FoundWord
}.

(** Modelled from the spec: the wasm class [Game].  The engine is
    opaque: its step takes the elapsed time, the clicks and the hover,
    changes the engine and either returns a snapshot or throws. *)
Class WasmGame (E : Type) := {
  wasm_tick : E → Z → list Position → option Position
              → E * completion Snapshot;
  wasm_score : E → Z;
  triplets_current_index : E → Z;
  clock_max_ms : E → Z;
  wasm_triplets : E → list Z;
  golden_word : E → list Z;
  golden_word_score : E → Z
}.

(** Calls that leave the module during a frame. *)
Inductive HostCall :=
| TickCall (delta : Z) (clicks : list Position) (hover : option Position)
| RequestAnimationFrame.

(** Everything [createGameState] closes over. *)
Record GameState (E : Type) := mkGame {
  wasmGame : E;
  clock : ClockState;
  grid : option Grid;
  score : Z;
  tripletsState : TripletsState;
  foundWords : list FoundWord;
  goldenState : GoldenState;
  userEvents : UserEventsState;
  lastFrame : Z
}.
Arguments mkGame {E}.
Arguments wasmGame {E}.
Arguments clock {E}.
Arguments grid {E}.
Arguments score {E}.
Arguments tripletsState {E}.
Arguments foundWords {E}.
Arguments goldenState {E}.
Arguments userEvents {E}.
Arguments lastFrame {E}.

Section Loop.
Context {E : Type} `{WasmGame E}.

Abbreviation Frame := (M (GameState E) HostCall).

(** Field assignments. *)
Definition setWasmGame (e : E) (g : GameState E) : GameState E :=
  mkGame e (clock g) (grid g) (score g) (tripletsState g) (foundWords g)
    (goldenState g) (userEvents g) (lastFrame g).
Definition setClock (c : ClockState) (g : GameState E) : GameState E :=
  mkGame (wasmGame g) c (grid g) (score g) (tripletsState g) (foundWords g)
    (goldenState g) (userEvents g) (lastFrame g).
Definition setGrid (x : option Grid) (g : GameState E) : GameState E :=
  mkGame (wasmGame g) (clock g) x (score g) (tripletsState g) (foundWords g)
    (goldenState g) (userEvents g) (lastFrame g).
Definition setScore (x : Z) (g : GameState E) : GameState E :=
  mkGame (wasmGame g) (clock g) (grid g) x (tripletsState g) (foundWords g)
    (goldenState g) (userEvents g) (lastFrame g).
Definition setTriplets (t : TripletsState) (g : GameState E) : GameState E :=
  mkGame (wasmGame g) (clock g) (grid g) (score g) t (foundWords g)
    (goldenState g) (userEvents g) (lastFrame g).
Definition setFoundWords (w : list FoundWord) (g : GameState E)
  : GameState E :=
  mkGame (wasmGame g) (clock g) (grid g) (score g) (tripletsState g) w
    (goldenState g) (userEvents g) (lastFrame g).
Definition setUserEvents (u : UserEventsState) (g : GameState E)
  : GameState E :=
  mkGame (wasmGame g) (clock g) (grid g) (score g) (tripletsState g)
    (foundWords g) (goldenState g) u (lastFrame g).
Definition setLastFrame (t : Z) (g : GameState E) : GameState E :=
  mkGame (wasmGame g) (clock g) (grid g) (score g) (tripletsState g)
    (foundWords g) (goldenState g) (userEvents g) t.

(** [userEvents.extractUserClicks()] *)
Definition callExtractUserClicks : Frame (list Position) :=
  λ g, let cu := extractUserClicks (userEvents g) in
       (setUserEvents cu.2 g, [], Normal cu.1).

(** [wasmGame.tick(delta, clicks, hover)]: the call is logged, the
    engine keeps whatever state it reached, and its completion is this
    call's completion. *)
Definition callWasmTick (delta : Z) (clicks : list Position)
    (hover : option Position) : Frame Snapshot :=
  λ g, let er := wasm_tick (wasmGame g) delta clicks hover in
       (setWasmGame er.1 g, [TickCall delta clicks hover], er.2).

(** [function tick(now)] *)
Definition tick (now : Z) : Frame unit :=
  g ← get;
  (if bool_decide (lastFrame g = 0)
   then modify (setLastFrame now) else mret tt);;
  g ← get;
  let delta := now - lastFrame g in
  modify (setLastFrame now);;
  clicks ← callExtractUserClicks;
  g ← get;
  snapshot ← callWasmTick delta clicks (lastHovered (userEvents g));
  modify (λ g, setClock (clockUpdate (clock_remaining_ms snapshot) (clock g)) g);;
  modify (setGrid (Some (transformToGrid (snapshot_grid snapshot))));;
  modify (λ g, setScore (wasm_score (wasmGame g)) g);;
  modify (λ g, setTriplets
                 (updateIndex (triplets_current_index (wasmGame g))
                    (tripletsState g)) g);;
  modify (setFoundWords (found_words snapshot));;
  emit RequestAnimationFrame.

(** [createGameState(wasmGame)]: the slices in their initial values,
    [lastFrame = 0], and the first frame requested. *)
Definition createGameState (e : E) : GameState E * list HostCall :=
  (mkGame e
     (createClockState (clock_max_ms e))
     None
     0
     (createTripletsState (wasm_triplets e))
     []
     (mkGolden (golden_word e) (golden_word_score e))
     createUserEventsState
     0,
   [RequestAnimationFrame]).

(** The host's loop: each stamp runs the callback that the frame before
    it requested; a throw leaves none requested and ends the loop. *)
Fixpoint runFrames (stamps : list Z) : Frame unit :=
  match stamps with
  | [] => mret tt
  | now :: rest => tick now;; runFrames rest
  end.

End Loop.

(** The elapsed times handed to the engine in a log. *)
Definition reportedDeltas (log : list HostCall) : list Z :=
  omap (λ c, match c with TickCall d _ _ => Some d | _ => None end) log.

(** The frames requested in a log. *)
Definition requestedFrames (log : list HostCall) : nat :=
  length (omap (λ c, match c with
                     | RequestAnimationFrame => Some tt
                     | _ => None
                     end) log).

(** A scripted engine for concrete runs: each step pops the next
    completion of the script, and throws once the script is exhausted. *)
Definition Scripted := list (completion Snapshot).

#[global] Instance Scripted_game : WasmGame Scripted := {|
  wasm_tick := λ e _ _ _,
    match e with
    | [] => ([], Throw (WasmFailure 0))
    | r :: rest => (rest, r)
    end;
  wasm_score := λ e, Z.of_nat (length e);
  triplets_current_index := λ _, 1;
  clock_max_ms := λ _, 20000;
  wasm_triplets := λ _, [1; 2; 3; 4; 5; 6];
  golden_word := λ _, [1; 2];
  golden_word_score := λ _, 10
|}.

(** A snapshot with one cell, for scripts. *)
Definition sampleSnapshot (remaining : Z) : Snapshot :=
  {| clock_remaining_ms := remaining;
     snapshot_grid := [mkCell (mkPosition 0 0) 5 PathingNone];
     found_words := [] |}.

End Game.

(** ** The seed of the day (src/lib/core/seed.ts, [seedOfTheDay]) *)

Module Seed.

(** The three UTC fields that [seedOfTheDay] reads from [new Date()]:
    [getUTCFullYear()], [getUTCMonth()] (0 to 11) and [getUTCDate()]
    (1 to 31). *)
Record UtcDate := mkUtcDate {
  utcFullYear : Z;
  utcMonth : Z;
  utcDate : Z
}.

(** The ranges the two getters stay in. *)
Definition inRange (d : UtcDate) : bool :=
  bool_decide (0 ≤ utcMonth d ≤ 11) && bool_decide (1 ≤ utcDate d ≤ 31).

(** [year * 10000 + (month + 1) * 100 + day] *)
Definition seedOfTheDay (now : UtcDate) : Z :=
  utcFullYear now * 10000 + (utcMonth now + 1) * 100 + utcDate now.

(** Calendar order on the three fields. *)
Definition earlier (d1 d2 : UtcDate) : Prop :=
  utcFullYear d1 < utcFullYear d2 ∨
  (utcFullYear d1 = utcFullYear d2 ∧
   (utcMonth d1 < utcMonth d2 ∨
    (utcMonth d1 = utcMonth d2 ∧ utcDate d1 < utcDate d2))).

End Seed.

(** ** Reading the grid (src/lib/components/Grid.svelte) *)

Module GridView.
Import GridCore.

(** [grid[column][row]] as the component evaluates it: a [TypeError]
    when [grid[column]] is [undefined], otherwise the cell or
    [undefined]. *)
Definition readCell (g : Grid) (column row : Z)
  : completion (option WasmCell) :=
  match g !! column with
  | None => Throw JsTypeError
  | Some r => Normal (r !! row)
  end.

(** Whether a list holds a record in a given column. *)
Definition hasColumn (raw : list WasmCell) (x : Z) : bool :=
  existsb (λ c, bool_decide (pos_x (position c) = x)) raw.

End GridView.

(** ** Runs of the user-event buffer with their drained clicks *)

Module UserEventsRuns.
Import UserEvents.

(** Everything the drains of a run returned, in order. *)
Fixpoint drained (ops : list Op) (s : UserEventsState) : list Position :=
  match ops with
  | [] => []
  | o :: rest =>
      (match o with
       | OpExtract => (extractUserClicks s).1
       | _ => []
       end) ++ drained rest (step s o)
  end.

(** The position of the last hover of a run, if it has one. *)
Definition lastHoverOf (ops : list Op) : option Position :=
  fold_left (λ acc o, match o with OpHover p => Some p | _ => acc end)
    ops None.

End UserEventsRuns.

(** ** What the triplets column shows (Game.svelte, Triplets.svelte) *)

Module TripletsView.
Import Triplets.

(** The letters a triplet holds, in order. *)
Definition lettersOf (t : Triplet) : list Z :=
  omap id [letter1 t; letter2 t; letter3 t].

(** A triplet with its three letters. *)
Definition complete (t : Triplet) : bool :=
  match letter1 t, letter2 t, letter3 t with
  | Some _, Some _, Some _ => true
  | _, _, _ => false
  end.

(** [[next, ...future]], the array Triplets.svelte maps over, built
    from the two getters as Game.svelte passes them. *)
Definition nextAndFuture (s : TripletsState)
  : completion (list (option Triplet)) :=
  match next s with
  | Throw e => Throw e
  | Normal n =>
      match future s with
      | Throw e => Throw e
      | Normal f => Normal (n :: map Some f)
      end
  end.

End TripletsView.

(** ** A session: input handlers and frames, as the host runs them *)

Module Session.
Import GridCore UserEvents Triplets Slices Game.

(** What can happen after [createGameState]: a cell calls [click] or
    [hover] of the user-events context, or the host reaches an animation
    frame.  ([extractUserClicks] is not in the context; only [tick]
    calls it.) *)
Inductive SessionOp :=
| SClick (p : Position)
| SHover (p : Position)
| SFrame (now : Z).

Section Run.
Context {E : Type} `{WasmGame E}.

(** The session from a state on.  [pending] tells whether a frame
    callback is requested: the host runs [tick] at a frame only then,
    and [tick] requests the next one unless it throws. *)
Fixpoint runSession (ops : list SessionOp) (pending : bool)
    (g : GameState E) : GameState E * list HostCall :=
  match ops with
  | [] => (g, [])
  | SClick p :: rest =>
      runSession rest pending (setUserEvents (click p (userEvents g)) g)
  | SHover p :: rest =>
      runSession rest pending (setUserEvents (hover p (userEvents g)) g)
  | SFrame now :: rest =>
      if pending then
        let r := tick now g in
        let pending' := match outcome r with
                        | Normal _ => true
                        | Throw _ => false
                        end in
        let r' := runSession rest pending' (finalState r) in
        (r'.1, callLog r ++ r'.2)
      else runSession rest pending g
  end.

End Run.

(** The clicks of a session, in arrival order. *)
Definition sessionClicks (ops : list SessionOp) : list Position :=
  omap (λ o, match o with SClick p => Some p | _ => None end) ops.

(** The clicks handed to the engine in a log, in order. *)
Definition deliveredClicks (log : list HostCall) : list Position :=
  concat (omap (λ c, match c with
                     | TickCall _ clicks _ => Some clicks
                     | _ => None
                     end) log).



(** Stamps that never go back, starting from [last]. *)
Fixpoint nonDecreasing (last : Z) (stamps : list Z) : bool :=
  match stamps with
  | [] => true
  | t :: rest => bool_decide (last ≤ t) && nonDecreasing t rest
  end.

End Session.

(** * Properties *)

(** ** Grid reconstruction *)

Module GridFacts.
Import GridCore.

Lemma find_snoc {A} (p : A → bool) (l : list A) (a : A) :
  find p (l ++ [a]) =
  match find p l with
  | Some b => Some b
  | None => if p a then Some a else None
  end.
Proof.
  induction l as [|b l IH]; simpl.
  - reflexivity.
  - destruct (p b); [reflexivity | exact IH].
Qed.

Lemma lastAt_cons (c : WasmCell) (raw : list WasmCell) (x y : Z) :
  lastAt (c :: raw) x y =
  match lastAt raw x y with
  | Some d => Some d
  | None => if bool_decide (position c = mkPosition x y) then Some c else None
  end.
Proof.
  unfold lastAt. cbn [rev].
  exact (find_snoc (λ d, bool_decide (position d = mkPosition x y)) (rev raw) c).
Qed.

Lemma lookup_ensureRow (cells : Grid) (x : Z) :
  ensureRow cells x !! x = Some (default ∅ (cells !! x)).
Proof.
  unfold ensureRow. destruct (cells !! x) as [row|] eqn:Hx; simpl.
  - exact Hx.
  - apply lookup_insert_eq.
Qed.

Lemma lookup_ensureRow_ne (cells : Grid) (x x' : Z) :
  x ≠ x' → ensureRow cells x !! x' = cells !! x'.
Proof.
  intros Hne. unfold ensureRow. destruct (cells !! x); [reflexivity|].
  by apply lookup_insert_ne.
Qed.

(** One step of the reduction stores the record under its own position
    and leaves every other address as it was. *)
Lemma cellAt_reducer (cells : Grid) (c : WasmCell) (x y : Z) :
  cellAt (reducer cells c) x y =
  if bool_decide (position c = mkPosition x y) then Some c
  else cellAt cells x y.
Proof.
  unfold reducer, assignCell, cellAt.
  destruct c as [[cx cy] l st]; simpl.
  rewrite lookup_ensureRow.
  destruct (decide (cx = x)) as [->|Hx].
  - rewrite lookup_insert_eq. simpl.
    destruct (decide (cy = y)) as [->|Hy].
    + rewrite lookup_insert_eq. by rewrite bool_decide_eq_true_2.
    + rewrite lookup_insert_ne by done.
      rewrite bool_decide_eq_false_2 by congruence.
      destruct (cells !! x); reflexivity.
  - rewrite lookup_insert_ne by done.
    rewrite lookup_ensureRow_ne by done.
    by rewrite bool_decide_eq_false_2 by congruence.
Qed.

Lemma cellAt_fold (raw : list WasmCell) (cells : Grid) (x y : Z) :
  cellAt (fold_left reducer raw cells) x y =
  match lastAt raw x y with
  | Some c => Some c
  | None => cellAt cells x y
  end.
Proof.
  revert cells. induction raw as [|c raw IH]; intros cells; simpl.
  - reflexivity.
  - rewrite IH, lastAt_cons, cellAt_reducer.
    destruct (lastAt raw x y); [reflexivity|].
    destruct (bool_decide _); reflexivity.
Qed.

Lemma lastAt_position (raw : list WasmCell) (x y : Z) (c : WasmCell) :
  lastAt raw x y = Some c → position c = mkPosition x y.
Proof.
  unfold lastAt. intros Hf. apply find_some in Hf as [_ Hp].
  by apply bool_decide_eq_true_1 in Hp.
Qed.

(** C6: for every input list, [grid[x][y]] of the reconstructed grid is
    the last record of the list whose position is [(x, y)] (absent when
    there is none), so a later duplicate overwrites an earlier one, and
    every entry found at [grid[x][y]] carries the position [(x, y)]. *)
Theorem transformToGrid_last_write_wins (raw : list WasmCell) (x y : Z) :
  cellAt (transformToGrid raw) x y = lastAt raw x y ∧
  match cellAt (transformToGrid raw) x y with
  | Some c => position c = mkPosition x y
  | None => True
  end.
Proof.
  assert (Hl : cellAt (transformToGrid raw) x y = lastAt raw x y).
  { unfold transformToGrid. rewrite cellAt_fold.
    destruct (lastAt raw x y); reflexivity. }
  split; [exact Hl|].
  rewrite Hl. destruct (lastAt raw x y) as [c|] eqn:Hc; [|exact I].
  by eapply lastAt_position.
Qed.

(** The scenario of the specification: records at (0,0), (0,1), (1,0). *)
Example transformToGrid_three_records :
  let c00 := mkCell (mkPosition 0 0) 1 PathingNone in
  let c01 := mkCell (mkPosition 0 1) 2 Path in
  let c10 := mkCell (mkPosition 1 0) 3 Blocked in
  let g := transformToGrid [c00; c01; c10] in
  dom <$> g !! 0 = Some ({[0; 1]} : gset Z) ∧
  dom <$> g !! 1 = Some ({[0]} : gset Z) ∧
  position <$> cellAt g 0 1 = Some (mkPosition 0 1).
Proof. vm_compute. repeat split; reflexivity. Qed.

End GridFacts.

(** ** The user-event buffer *)

Module UserEventsFacts.
Import UserEvents.

Lemma userClicks_run (ops : list Op) (s : UserEventsState) :
  noExtract ops = true →
  userClicks (run ops s) = userClicks s ++ clicksOf ops.
Proof.
  revert s. induction ops as [|o ops IH]; intros s Hops.
  - simpl. by rewrite app_nil_r.
  - cbn in Hops. apply andb_true_iff in Hops as [Ho Hops].
    unfold run in *. cbn [fold_left].
    rewrite (IH _ Hops).
    destruct o; cbn in *; try discriminate.
    + by rewrite <- app_assoc.
    + reflexivity.
    + reflexivity.
Qed.

Lemma lastHovered_run (ops : list Op) (s : UserEventsState) :
  noHover ops = true →
  lastHovered (run ops s) = lastHovered s.
Proof.
  revert s. induction ops as [|o ops IH]; intros s Hops.
  - reflexivity.
  - cbn in Hops. apply andb_true_iff in Hops as [Ho Hops].
    unfold run in *. cbn [fold_left].
    rewrite (IH _ Hops).
    destruct o; cbn in *; try discriminate; reflexivity.
Qed.

(** C4: whatever is recorded between two drains (clicks in any number,
    interleaved with hovers and hover reads), the second drain returns
    exactly the clicked positions in arrival order and leaves the queue
    empty; draining an empty queue returns the empty sequence, twice in
    a row as well, and changes nothing. *)
Theorem extractUserClicks_between_drains
    (s : UserEventsState) (ops : list Op) (h : option Position) :
  noExtract ops = true →
  let afterFirst := (extractUserClicks s).2 in
  let second := extractUserClicks (run ops afterFirst) in
  second.1 = clicksOf ops ∧
  userClicks second.2 = [] ∧
  extractUserClicks (mkUserEvents [] h) = ([], mkUserEvents [] h) ∧
  (extractUserClicks second.2).1 = [] ∧
  (extractUserClicks (extractUserClicks second.2).2).1 = [].
Proof.
  intros Hops afterFirst second. subst afterFirst second.
  cbn [extractUserClicks fst snd userClicks].
  rewrite (userClicks_run _ _ Hops). cbn.
  repeat split; reflexivity.
Qed.

Lemma extractUserClicks_between_drains_witness :
  let p1 := mkPosition 1 2 in
  let p2 := mkPosition 3 4 in
  let p3 := mkPosition 1 2 in
  let ops := [OpClick p1; OpHover p2; OpClick p2; OpPeekHover; OpClick p3] in
  let s := click p2 createUserEventsState in
  noExtract ops = true ∧
  (extractUserClicks (run ops (extractUserClicks s).2)).1 = [p1; p2; p3].
Proof.
  intros p1 p2 p3 ops s. split; [reflexivity|].
  exact (proj1 (extractUserClicks_between_drains s ops None eq_refl)).
Defined.

(** C5: the hover value is [null] until a hover is recorded; after
    [hover(P1)] then [hover(P2)] it reads [P2] through any run of
    clicks, drains and reads, and a third hover replaces it. *)
Theorem lastHovered_last_write_wins
    (s : UserEventsState) (p1 p2 p3 : Position) (ops : list Op) :
  noHover ops = true →
  lastHovered (run ops createUserEventsState) = None ∧
  lastHovered (run ops (hover p2 (hover p1 s))) = Some p2 ∧
  lastHovered (extractUserClicks (run ops (hover p2 (hover p1 s)))).2
    = Some p2 ∧
  lastHovered (hover p3 (run ops (hover p2 (hover p1 s)))) = Some p3.
Proof.
  intros Hops. cbn [extractUserClicks snd lastHovered hover].
  rewrite !(lastHovered_run _ _ Hops). repeat split; reflexivity.
Qed.

Lemma lastHovered_last_write_wins_witness :
  let p1 := mkPosition 0 0 in
  let p2 := mkPosition 5 6 in
  let ops := [OpClick p1; OpPeekHover; OpExtract; OpPeekHover; OpClick p2] in
  noHover ops = true ∧
  lastHovered (run ops (hover p2 (hover p1 createUserEventsState)))
    = Some p2.
Proof.
  intros p1 p2 ops. split; [reflexivity|].
  exact (proj1 (proj2 (lastHovered_last_write_wins
                         createUserEventsState p1 p2 p1 ops eq_refl))).
Defined.

End UserEventsFacts.

(** ** The triplets slice *)

Module TripletsFacts.
Import Triplets.

Lemma arrayGet_in_range {A} (l : list A) (i : Z) :
  0 ≤ i < Z.of_nat (length l) → is_Some (arrayGet l i).
Proof.
  intros Hi. unfold arrayGet.
  rewrite bool_decide_eq_false_2 by lia.
  apply lookup_lt_is_Some. lia.
Qed.

Lemma arrayGet_past_end {A} (l : list A) (i : Z) :
  Z.of_nat (length l) ≤ i → arrayGet l i = None.
Proof.
  intros Hi. unfold arrayGet.
  rewrite bool_decide_eq_false_2 by lia.
  apply lookup_ge_None_2. lia.
Qed.

(** C1, as the code has it: for a sequence of length n and an index
    i >= n, [updateIndex] stores i as it is and reading [next] completes
    normally with [undefined]; nothing is thrown. *)
Theorem next_past_end_is_undefined (s : TripletsState) (i : Z) :
  total s ≤ i →
  currentIndex (updateIndex i s) = i ∧
  next (updateIndex i s) = Normal None.
Proof.
  intros Hi. split; [reflexivity|].
  unfold next, updateIndex. cbn [triplets currentIndex].
  by rewrite arrayGet_past_end.
Qed.

Lemma next_past_end_is_undefined_witness :
  let s := createTripletsState [1; 2; 3; 4; 5; 6] in
  total s ≤ 2 ∧ next (updateIndex 2 s) = Normal None.
Proof.
  intros s. split; [vm_compute; discriminate|].
  apply (next_past_end_is_undefined s 2). vm_compute. discriminate.
Defined.

(** C1 as stated fails: with two triplets and index 2, reading [next]
    returns [undefined] and throws nothing. *)
Lemma next_index_2_of_2_no_throw :
  let s := updateIndex 2 (createTripletsState [1; 2; 3; 4; 5; 6]) in
  total s = 2 ∧ total s ≤ currentIndex s ∧
  next s = Normal None ∧ ¬ ∃ e, next s = Throw e.
Proof.
  intros s. repeat split.
  - vm_compute. discriminate.
  - intros [e He]. discriminate He.
Qed.

End TripletsFacts.

(** ** Letter resolution *)

Module LetterTableFacts.
Import LetterTable.

Section WithSentinel.
Variable is_empty_cell : Z → bool.

Lemma getLetter_empty (i : Z) (slot : option LettersTableContext) :
  is_empty_cell i = true →
  getLetter is_empty_cell i slot = (slot, [], Normal None).
Proof. intros Hi. unfold getLetter. by rewrite Hi. Qed.

Lemma getLetter_bound (i : Z) (t : LettersTable) :
  is_empty_cell i = false →
  getLetter is_empty_cell i (bound t)
  = (bound t, [GetLetterCall i; GetScoreCall i], Normal (Some (letterOf t i))).
Proof. intros Hi. unfold getLetter. by rewrite Hi. Qed.

Lemma getLetter_unbound (i : Z) :
  is_empty_cell i = false →
  getLetter is_empty_cell i None = (None, [], Throw JsTypeError).
Proof. intros Hi. unfold getLetter. by rewrite Hi. Qed.

(** One element of [arrayMap], run. *)
Lemma arrayMap_cons_run {S Ev A B} (f : A → M S Ev B) (a : A)
    (rest : list A) (s : S) :
  arrayMap f (a :: rest) s =
  match f a s with
  | (s1, t1, Normal b) =>
      match arrayMap f rest s1 with
      | (s2, t2, Normal bs) => (s2, t1 ++ t2, Normal (b :: bs))
      | (s2, t2, Throw e) => (s2, t1 ++ t2, Throw e)
      end
  | (s1, t1, Throw e) => (s1, t1, Throw e)
  end.
Proof.
  cbn [arrayMap]. unfold bind.
  destruct (f a s) as [[s1 t1] [b|e]]; [|reflexivity].
  destruct (arrayMap f rest s1) as [[s2 t2] [bs|e]];
    cbn; rewrite ?app_nil_r; reflexivity.
Qed.

(** The callback of [getWord], run on a bound table. *)
Lemma getWord_callback_bound (i : Z) (t : LettersTable) :
  (getLetter is_empty_cell i ≫= λ letter,
     match letter with
     | Some l => mret l
     | None => throw (invalidLetterIndex i)
     end) (bound t)
  = if is_empty_cell i
    then (bound t, [], Throw (invalidLetterIndex i))
    else (bound t, [GetLetterCall i; GetScoreCall i], Normal (letterOf t i)).
Proof.
  unfold mbind, M_bind, bind.
  destruct (is_empty_cell i) eqn:Hi.
  - by rewrite (getLetter_empty _ _ Hi).
  - by rewrite (getLetter_bound _ _ Hi).
Qed.

(** The whole run of [getWord] on a bound table. *)
Lemma getWord_bound (letters : list Z) (t : LettersTable) :
  getWord is_empty_cell letters (bound t)
  = (bound t,
     wordLog is_empty_cell letters,
     match firstEmpty is_empty_cell letters with
     | Some i => Throw (invalidLetterIndex i)
     | None => Normal (map (letterOf t) letters)
     end).
Proof.
  induction letters as [|i rest IH].
  - reflexivity.
  - unfold getWord in *. rewrite arrayMap_cons_run, getWord_callback_bound.
    cbn [wordLog firstEmpty find].
    destruct (is_empty_cell i); [reflexivity|].
    rewrite IH. unfold firstEmpty.
    destruct (find is_empty_cell rest); reflexivity.
Qed.

Lemma firstEmpty_exists (letters : list Z) (c : Z) :
  c ∈ letters → is_empty_cell c = true →
  ∃ i, firstEmpty is_empty_cell letters = Some i
       ∧ i ∈ letters ∧ is_empty_cell i = true.
Proof.
  intros Hc He. unfold firstEmpty.
  destruct (find is_empty_cell letters) as [i|] eqn:Hf.
  - exists i. apply find_some in Hf as [Hin Hi].
    repeat split; [by apply list_elem_of_In | done].
  - exfalso. apply list_elem_of_In in Hc.
    pose proof (find_none _ _ Hf _ Hc) as Hn. congruence.
Qed.

End WithSentinel.

(** C7: for a code the sentinel test accepts, [getLetter] returns
    [null] without throwing, makes no call to the table and does not even
    need the context to be set. *)
Theorem getLetter_empty_no_lookup
    (is_empty_cell : Z → bool) (c : Z) (slot : option LettersTableContext) :
  is_empty_cell c = true →
  outcome (getLetter is_empty_cell c slot) = Normal None ∧
  callLog (getLetter is_empty_cell c slot) = [] ∧
  finalState (getLetter is_empty_cell c slot) = slot.
Proof. intros Hc. by rewrite (getLetter_empty _ _ _ Hc). Qed.

Lemma getLetter_empty_no_lookup_witness :
  zeroIsEmpty 0 = true ∧
  outcome (getLetter zeroIsEmpty 0 None) = Normal None ∧
  callLog (getLetter zeroIsEmpty 0 (bound smallTable)) = [].
Proof.
  split; [reflexivity|]. split.
  - exact (proj1 (getLetter_empty_no_lookup zeroIsEmpty 0 None eq_refl)).
  - exact (proj1 (proj2 (getLetter_empty_no_lookup zeroIsEmpty 0
                           (bound smallTable) eq_refl))).
Defined.

(** C2, as the code has it: for a non-empty code on a bound table,
    [getLetter] asks the table for the character and then the score and
    returns a letter holding the code and the two answers, whatever they
    are; when the table has no entry both are absent, and nothing is
    thrown. *)
Theorem getLetter_returns_table_answers
    (is_empty_cell : Z → bool) (c : Z) (t : LettersTable) :
  is_empty_cell c = false →
  outcome (getLetter is_empty_cell c (bound t))
  = Normal (Some {| index := c;
                    char := try_get_letter_char t c;
                    score := try_get_letter_score t c |}) ∧
  callLog (getLetter is_empty_cell c (bound t))
  = [GetLetterCall c; GetScoreCall c].
Proof. intros Hc. by rewrite (getLetter_bound _ _ _ Hc). Qed.

Lemma getLetter_returns_table_answers_witness :
  zeroIsEmpty 9 = false ∧
  outcome (getLetter zeroIsEmpty 9 (bound smallTable))
  = Normal (Some {| index := 9; char := None; score := None |}).
Proof.
  split; [reflexivity|].
  exact (proj1 (getLetter_returns_table_answers zeroIsEmpty 9 smallTable
                  eq_refl)).
Defined.

(** C2 as stated fails: code 9 is not empty and the table has no entry
    for it, yet [getLetter] throws nothing and returns a letter without
    character and score. *)
Lemma getLetter_missing_entry_no_throw :
  zeroIsEmpty 9 = false ∧
  try_get_letter_char smallTable 9 = None ∧
  try_get_letter_score smallTable 9 = None ∧
  outcome (getLetter zeroIsEmpty 9 (bound smallTable))
  = Normal (Some {| index := 9; char := None; score := None |}) ∧
  ¬ ∃ e, outcome (getLetter zeroIsEmpty 9 (bound smallTable)) = Throw e.
Proof.
  repeat split. intros [e He]. discriminate He.
Qed.

(** C8: on a bound table, a word that contains a code accepted by the
    sentinel test makes [getWord] throw the error
    "Invalid letter index in word: i", where i is the first such code of
    the word; the letters before it have been looked up, no letter after
    it is. *)
Theorem getWord_empty_code_throws
    (is_empty_cell : Z → bool) (letters : list Z) (c : Z) (t : LettersTable) :
  c ∈ letters → is_empty_cell c = true →
  ∃ i, firstEmpty is_empty_cell letters = Some i ∧
       i ∈ letters ∧ is_empty_cell i = true ∧
       outcome (getWord is_empty_cell letters (bound t))
       = Throw (JsError ("Invalid letter index in word: " +:+ pretty i)).
Proof.
  intros Hc He.
  destruct (firstEmpty_exists is_empty_cell letters c Hc He)
    as (i & Hf & Hin & Hi).
  exists i. repeat split; try done.
  rewrite getWord_bound. unfold outcome. cbn [snd]. by rewrite Hf.
Qed.

Lemma getWord_empty_code_throws_witness :
  (0 ∈ [5; 0; 7]) ∧ zeroIsEmpty 0 = true ∧
  ∃ i, firstEmpty zeroIsEmpty [5; 0; 7] = Some i ∧
       i ∈ [5; 0; 7] ∧ zeroIsEmpty i = true ∧
       outcome (getWord zeroIsEmpty [5; 0; 7] (bound smallTable))
       = Throw (JsError ("Invalid letter index in word: " +:+ pretty i)).
Proof.
  assert (Hin : 0 ∈ [5; 0; 7]) by (apply list_elem_of_In; simpl; tauto).
  split; [exact Hin|]. split; [reflexivity|].
  exact (getWord_empty_code_throws zeroIsEmpty [5; 0; 7] 0 smallTable
           Hin eq_refl).
Defined.

(** The scenario of the specification, run. *)
Example getWord_5_empty_7 :
  getWord zeroIsEmpty [5; 0; 7] (bound smallTable)
  = (bound smallTable,
     [GetLetterCall 5; GetScoreCall 5],
     Throw (JsError "Invalid letter index in word: 0")).
Proof. vm_compute. reflexivity. Qed.

Example getWord_5_7 :
  outcome (getWord zeroIsEmpty [5; 7] (bound smallTable))
  = Normal [mkLetter 5 (Some "e"%string) (Some 1);
            mkLetter 7 (Some "g"%string) (Some 2)].
Proof. vm_compute. reflexivity. Qed.

End LetterTableFacts.

(** ** The frame loop *)

Module GameFacts.
Import GridCore UserEvents Triplets Slices Game.

Section Loop.
Context {E : Type} `{WasmGame E}.

(** The elapsed time [tick] computes from the stored stamp. *)
Lemma tick_delta_cases (now last : Z) :
  now - (if bool_decide (last = 0) then now else last)
  = if bool_decide (last = 0) then 0 else now - last.
Proof. destruct (bool_decide (last = 0)); lia. Qed.

(** One frame, run: what is handed to the engine, and the state, log and
    completion that result from the engine's completion. *)
Lemma tick_run (now : Z) (g : GameState E) :
  let delta := if bool_decide (lastFrame g = 0) then 0
               else now - lastFrame g in
  let clicks := userClicks (userEvents g) in
  let hover := lastHovered (userEvents g) in
  let drained := mkUserEvents [] hover in
  tick now g =
  match wasm_tick (wasmGame g) delta clicks hover with
  | (e', Normal snapshot) =>
      (mkGame e'
         (clockUpdate (clock_remaining_ms snapshot) (clock g))
         (Some (transformToGrid (snapshot_grid snapshot)))
         (wasm_score e')
         (updateIndex (triplets_current_index e') (tripletsState g))
         (found_words snapshot)
         (goldenState g)
         drained
         now,
       [TickCall delta clicks hover; RequestAnimationFrame],
       Normal tt)
  | (e', Throw x) =>
      (mkGame e' (clock g) (grid g) (score g) (tripletsState g)
         (foundWords g) (goldenState g) drained now,
       [TickCall delta clicks hover],
       Throw x)
  end.
Proof.
  intros delta clicks hover drained. subst delta clicks hover drained.
  unfold tick, mbind, M_bind, bind, get, modify, emit, mret, M_ret, ret,
    callExtractUserClicks, callWasmTick.
  rewrite <- tick_delta_cases.
  destruct (bool_decide (lastFrame g = 0)); cbn;
    match goal with
    | |- context [wasm_tick ?e ?d ?c ?h] =>
        destruct (wasm_tick e d c h) as [e' [snapshot|x]]
    end; reflexivity.
Qed.

Lemma tick_reportedDeltas (now : Z) (g : GameState E) :
  reportedDeltas (callLog (tick now g))
  = [if bool_decide (lastFrame g = 0) then 0 else now - lastFrame g].
Proof.
  rewrite tick_run.
  destruct (wasm_tick _ _ _ _) as [e' [snapshot|x]]; reflexivity.
Qed.

Lemma tick_lastFrame (now : Z) (g : GameState E) :
  lastFrame (finalState (tick now g)) = now.
Proof.
  rewrite tick_run.
  destruct (wasm_tick _ _ _ _) as [e' [snapshot|x]]; reflexivity.
Qed.

Lemma createGameState_lastFrame (e : E) :
  lastFrame (createGameState e).1 = 0.
Proof. reflexivity. Qed.

End Loop.

(** C3, as the code has it: the first invocation hands the engine an
    elapsed time of 0 and stores its argument; a later invocation made
    while the stored stamp is not 0 hands over [now - lastFrame] and
    then stores [now].  [tick(1000)] then [tick(1016)] gives 0, then 16,
    and leaves 1016 stored. *)
Theorem tick_frame_timing {E : Type} `{WasmGame E}
    (e : E) (g : GameState E) (now : Z) :
  lastFrame g ≠ 0 →
  let g0 := (createGameState e).1 in
  let g1 := finalState (tick 1000 g0) in
  reportedDeltas (callLog (tick now g0)) = [0] ∧
  lastFrame (finalState (tick now g0)) = now ∧
  reportedDeltas (callLog (tick now g)) = [now - lastFrame g] ∧
  lastFrame (finalState (tick now g)) = now ∧
  reportedDeltas (callLog (tick 1000 g0)) = [0] ∧
  reportedDeltas (callLog (tick 1016 g1)) = [16] ∧
  lastFrame (finalState (tick 1016 g1)) = 1016.
Proof.
  intros Hg g0 g1.
  assert (H1 : lastFrame g1 = 1000) by apply tick_lastFrame.
  rewrite !tick_reportedDeltas, !tick_lastFrame, H1.
  rewrite (bool_decide_eq_false_2 _ Hg).
  repeat split; reflexivity.
Qed.

Lemma tick_frame_timing_witness :
  let e : Scripted := [Normal (sampleSnapshot 19984)] in
  let g := finalState (tick 1000 (createGameState e).1) in
  lastFrame g ≠ 0 ∧
  reportedDeltas (callLog (tick 1016 g)) = [1016 - lastFrame g] ∧
  lastFrame (finalState (tick 1016 g)) = 1016.
Proof.
  intros e g.
  assert (Hg : lastFrame g ≠ 0) by (vm_compute; discriminate).
  split; [exact Hg|].
  pose proof (tick_frame_timing e g 1016 Hg) as (_ & _ & Hd & Hl & _).
  split; [exact Hd | exact Hl].
Defined.

(** C3 as stated fails: when the first invocation is [tick(0)], the
    second one, [tick(5)], hands the engine 0 and not 5 - 0. *)
Lemma tick_second_delta_after_zero :
  let e : Scripted := [Normal (sampleSnapshot 20000);
                       Normal (sampleSnapshot 20000)] in
  let g0 := (createGameState e).1 in
  ¬ (∀ t1 t2 : Z,
       reportedDeltas (callLog (tick t2 (finalState (tick t1 g0))))
       = [t2 - t1]).
Proof.
  intros e g0 Hall. specialize (Hall 0 5). vm_compute in Hall.
  discriminate Hall.
Qed.

(** C9: when the engine's step throws during a frame, [tick] completes
    with that same exception, the engine has been called once, no frame
    has been requested, every slice holds what it held before, and the
    host's loop ends there. *)
Theorem tick_engine_failure {E : Type} `{WasmGame E}
    (g : GameState E) (now : Z) (later : list Z) (x : JsException) :
  let delta := if bool_decide (lastFrame g = 0) then 0
               else now - lastFrame g in
  let clicks := userClicks (userEvents g) in
  let hover := lastHovered (userEvents g) in
  (wasm_tick (wasmGame g) delta clicks hover).2 = Throw x →
  let r := tick now g in
  outcome r = Throw x ∧
  callLog r = [TickCall delta clicks hover] ∧
  requestedFrames (callLog r) = 0%nat ∧
  clock (finalState r) = clock g ∧
  grid (finalState r) = grid g ∧
  score (finalState r) = score g ∧
  tripletsState (finalState r) = tripletsState g ∧
  foundWords (finalState r) = foundWords g ∧
  goldenState (finalState r) = goldenState g ∧
  runFrames (now :: later) g = r.
Proof.
  intros delta clicks hover Hx r.
  assert (Hr : r = tick now g) by reflexivity.
  assert (Hloop : runFrames (now :: later) g
                  = match r with
                    | (s1, t1, Normal a) =>
                        match runFrames later s1 with
                        | (s2, t2, c) => (s2, t1 ++ t2, c)
                        end
                    | (s1, t1, Throw y) => (s1, t1, Throw y)
                    end) by reflexivity.
  rewrite Hloop. clear Hloop.
  pose proof (tick_run now g) as Hrun. cbv zeta in Hrun.
  fold delta clicks hover in Hrun. rewrite <- Hr in Hrun.
  destruct (wasm_tick (wasmGame g) delta clicks hover) as [e' c].
  cbn [snd] in Hx. subst c. rewrite Hrun.
  repeat split; reflexivity.
Qed.

Lemma tick_engine_failure_witness :
  let e : Scripted := [Normal (sampleSnapshot 19000);
                       Throw (WasmFailure 42)] in
  let g := finalState (tick 1000 (createGameState e).1) in
  (wasm_tick (wasmGame g) 16 [] None).2 = Throw (WasmFailure 42) ∧
  outcome (tick 1016 g) = Throw (WasmFailure 42) ∧
  callLog (tick 1016 g) = [TickCall 16 [] None] ∧
  clock (finalState (tick 1016 g)) = clock g ∧
  runFrames [1016; 1032; 1048] g = tick 1016 g.
Proof.
  intros e g.
  assert (Hx : (wasm_tick (wasmGame g) 16 [] None).2
               = Throw (WasmFailure 42)) by reflexivity.
  split; [exact Hx|].
  pose proof (tick_engine_failure g 1016 [1032; 1048] (WasmFailure 42) Hx)
    as (Ho & Hl & _ & Hc & _ & _ & _ & _ & _ & Hloop).
  exact (conj Ho (conj Hl (conj Hc Hloop))).
Defined.

(** C10: when the very first invocation is [tick(0)], the stored stamp
    stays 0; the next invocation, at any t > 0, is treated as a first
    frame again: it hands the engine 0 (not t) and stores t; the third
    invocation is the first to hand over a difference of stamps. *)
Theorem tick_zero_first_stamp {E : Type} `{WasmGame E}
    (e : E) (t t3 : Z) :
  0 < t →
  let g0 := (createGameState e).1 in
  let r1 := tick 0 g0 in
  let r2 := tick t (finalState r1) in
  let r3 := tick t3 (finalState r2) in
  reportedDeltas (callLog r1) = [0] ∧ lastFrame (finalState r1) = 0 ∧
  reportedDeltas (callLog r2) = [0] ∧ [0] ≠ [t] ∧
  lastFrame (finalState r2) = t ∧
  reportedDeltas (callLog r3) = [t3 - t] ∧ lastFrame (finalState r3) = t3.
Proof.
  intros Ht g0 r1 r2 r3. subst r3 r2 r1.
  rewrite !tick_reportedDeltas, !tick_lastFrame.
  rewrite (bool_decide_eq_false_2 (t = 0)) by lia.
  repeat split; try reflexivity.
  intros Heq. injection Heq as Heq. lia.
Qed.

Lemma tick_zero_first_stamp_witness :
  let e : Scripted := [Normal (sampleSnapshot 20000);
                       Normal (sampleSnapshot 20000);
                       Normal (sampleSnapshot 19984)] in
  let g0 := (createGameState e).1 in
  let g1 := finalState (tick 0 g0) in
  let g2 := finalState (tick 7 g1) in
  0 < 7 ∧
  lastFrame g1 = 0 ∧
  reportedDeltas (callLog (tick 7 g1)) = [0] ∧
  lastFrame g2 = 7 ∧
  reportedDeltas (callLog (tick 23 g2)) = [23 - 7].
Proof.
  intros e g0 g1 g2. split; [reflexivity|].
  pose proof (tick_zero_first_stamp e 7 23 eq_refl)
    as (_ & H1 & H2 & _ & Hl & H3 & _).
  exact (conj H1 (conj H2 (conj Hl H3))).
Defined.

(** The same three frames through the host's loop. *)
Example runFrames_zero_first_stamp :
  let e : Scripted := [Normal (sampleSnapshot 20000);
                       Normal (sampleSnapshot 20000);
                       Normal (sampleSnapshot 19984)] in
  reportedDeltas (callLog (runFrames [0; 7; 23] (createGameState e).1))
  = [0; 0; 16] ∧
  requestedFrames (callLog (runFrames [0; 7; 23] (createGameState e).1))
  = 3%nat.
Proof. vm_compute. split; reflexivity. Qed.

End GameFacts.

(** ** The seed of the day *)

Module SeedFacts.
Import Seed.

Lemma inRange_bounds (d : UtcDate) :
  inRange d = true → 0 ≤ utcMonth d ≤ 11 ∧ 1 ≤ utcDate d ≤ 31.
Proof.
  unfold inRange. intros Hd. apply andb_true_iff in Hd as [Hm Hday].
  apply bool_decide_eq_true_1 in Hm. apply bool_decide_eq_true_1 in Hday.
  lia.
Qed.

(** X1: the seed reads as the date written YYYYMMDD: its last two
    decimal digits are the day, the two before them the month counted
    from 1, and what is left is the year. *)
Theorem seedOfTheDay_digits (d : UtcDate) :
  inRange d = true →
  seedOfTheDay d `mod` 100 = utcDate d ∧
  (seedOfTheDay d `div` 100) `mod` 100 = utcMonth d + 1 ∧
  seedOfTheDay d `div` 10000 = utcFullYear d.
Proof.
  intros Hd. apply inRange_bounds in Hd. unfold seedOfTheDay.
  destruct d as [y m day]; cbn [utcFullYear utcMonth utcDate] in *.
  assert (H1 : (y * 10000 + (m + 1) * 100 + day) `mod` 100 = day).
  { symmetry. apply (Z.mod_unique _ _ (y * 100 + (m + 1))); lia. }
  assert (H2 : (y * 10000 + (m + 1) * 100 + day) `div` 100
               = y * 100 + (m + 1)).
  { symmetry. apply (Z.div_unique _ _ _ day); lia. }
  assert (H3 : (y * 100 + (m + 1)) `mod` 100 = m + 1).
  { symmetry. apply (Z.mod_unique _ _ y); lia. }
  assert (H4 : (y * 10000 + (m + 1) * 100 + day) `div` 10000 = y).
  { symmetry. apply (Z.div_unique _ _ _ ((m + 1) * 100 + day)); lia. }
  rewrite H1, H2, H3, H4. repeat split; reflexivity.
Qed.

Lemma seedOfTheDay_digits_witness :
  let d := mkUtcDate 2026 10 2 in
  inRange d = true ∧ seedOfTheDay d = 20261102 ∧
  seedOfTheDay d `div` 10000 = 2026.
Proof.
  intros d. split; [reflexivity|]. split; [reflexivity|].
  exact (proj2 (proj2 (seedOfTheDay_digits d eq_refl))).
Defined.

(** X2: over dates in range the seed follows the calendar: an earlier
    day has a smaller seed, and two days have the same seed only when
    they are the same day. *)
Theorem seedOfTheDay_order (d1 d2 : UtcDate) :
  inRange d1 = true → inRange d2 = true →
  (earlier d1 d2 ↔ seedOfTheDay d1 < seedOfTheDay d2) ∧
  (seedOfTheDay d1 = seedOfTheDay d2 ↔ d1 = d2).
Proof.
  intros H1 H2. apply inRange_bounds in H1. apply inRange_bounds in H2.
  unfold earlier, seedOfTheDay.
  destruct d1 as [y1 m1 a1], d2 as [y2 m2 a2];
    cbn [utcFullYear utcMonth utcDate] in *.
  split; split.
  - lia.
  - lia.
  - intros Hs. assert (y1 = y2 ∧ m1 = m2 ∧ a1 = a2) as (-> & -> & ->) by lia.
    reflexivity.
  - intros [= -> -> ->]. reflexivity.
Qed.

Lemma seedOfTheDay_order_witness :
  let d1 := mkUtcDate 2025 11 31 in
  let d2 := mkUtcDate 2026 0 1 in
  inRange d1 = true ∧ inRange d2 = true ∧
  seedOfTheDay d1 < seedOfTheDay d2.
Proof.
  intros d1 d2. split; [reflexivity|]. split; [reflexivity|].
  apply (proj1 (seedOfTheDay_order d1 d2 eq_refl eq_refl)).
  left. reflexivity.
Defined.

End SeedFacts.

(** ** Rows of the grid, and reading it *)

Module GridViewFacts.
Import GridCore GridView.

Lemma lookup_reducer (cells : Grid) (c : WasmCell) (x : Z) :
  reducer cells c !! x =
  if decide (pos_x (position c) = x)
  then Some (<[pos_y (position c) := c]> (default ∅ (cells !! x)))
  else cells !! x.
Proof.
  unfold reducer, assignCell. rewrite GridFacts.lookup_ensureRow.
  destruct (decide (pos_x (position c) = x)) as [<-|Hne].
  - by rewrite lookup_insert_eq.
  - rewrite lookup_insert_ne by done.
    by apply GridFacts.lookup_ensureRow_ne.
Qed.

Lemma hasColumn_elem_of (raw : list WasmCell) (x : Z) :
  hasColumn raw x = true ↔ ∃ c, c ∈ raw ∧ pos_x (position c) = x.
Proof.
  unfold hasColumn. rewrite existsb_exists. split.
  - intros (c & Hin & Hc). exists c. split; [by apply list_elem_of_In|].
    by apply bool_decide_eq_true_1 in Hc.
  - intros (c & Hin & Hc). exists c. split; [by apply list_elem_of_In|].
    by apply bool_decide_eq_true_2.
Qed.

Lemma lookup_fold_is_Some (raw : list WasmCell) (cells : Grid) (x : Z) :
  is_Some (fold_left reducer raw cells !! x)
  ↔ is_Some (cells !! x) ∨ hasColumn raw x = true.
Proof.
  revert cells. induction raw as [|c raw IH]; intros cells.
  - cbn. split; [by left | by intros [?|?]].
  - cbn [fold_left hasColumn existsb]. rewrite IH, lookup_reducer.
    fold (hasColumn raw x).
    destruct (decide (pos_x (position c) = x)) as [Hx|Hx].
    + rewrite (bool_decide_eq_true_2 _ Hx). cbn. split; [by right|].
      intros _. left. by eexists.
    + rewrite (bool_decide_eq_false_2 _ Hx). cbn. reflexivity.
Qed.

Lemma lookup_fold_nonempty (raw : list WasmCell) (cells : Grid) :
  (∀ x, cells !! x ≠ Some ∅) →
  ∀ x, fold_left reducer raw cells !! x ≠ Some ∅.
Proof.
  revert cells. induction raw as [|c raw IH]; intros cells Hcells x.
  - apply Hcells.
  - cbn [fold_left]. apply IH. clear x. intros x.
    rewrite lookup_reducer. destruct (decide _); [|apply Hcells].
    intros [= Hins]. by apply insert_non_empty in Hins.
Qed.

Lemma lookup_row (g : Grid) (x y : Z) (r : gmap Z WasmCell) :
  g !! x = Some r → r !! y = cellAt g x y.
Proof. intros Hr. unfold cellAt. by rewrite Hr. Qed.

Lemma cellAt_transformToGrid (raw : list WasmCell) (x y : Z) :
  cellAt (transformToGrid raw) x y = lastAt raw x y.
Proof.
  unfold transformToGrid. rewrite GridFacts.cellAt_fold.
  destruct (lastAt raw x y); reflexivity.
Qed.

Lemma lookup_transformToGrid_is_Some (raw : list WasmCell) (x : Z) :
  is_Some (transformToGrid raw !! x) ↔ hasColumn raw x = true.
Proof.
  unfold transformToGrid. rewrite lookup_fold_is_Some, lookup_empty.
  split; [intros [[? [=]]|?]; done | by right].
Qed.

(** X3: the grid has a row under [x] exactly when some record of the
    input sits in column [x], and no row of the grid is ever empty. *)
Theorem transformToGrid_rows (raw : list WasmCell) (x : Z) :
  (is_Some (transformToGrid raw !! x)
   ↔ ∃ c, c ∈ raw ∧ pos_x (position c) = x) ∧
  transformToGrid raw !! x ≠ Some ∅.
Proof.
  split.
  - rewrite lookup_transformToGrid_is_Some. apply hasColumn_elem_of.
  - apply lookup_fold_nonempty. intros x'. by rewrite lookup_empty.
Qed.

(** X4: reading [grid[x][y]] from the reconstructed grid throws a
    [TypeError] when the input has no record in column [x]; otherwise
    it yields the last record at [(x, y)], or [undefined] when the
    column has records but none at [y]. *)
Theorem readCell_transformToGrid (raw : list WasmCell) (x y : Z) :
  readCell (transformToGrid raw) x y =
  if hasColumn raw x then Normal (lastAt raw x y) else Throw JsTypeError.
Proof.
  unfold readCell.
  destruct (transformToGrid raw !! x) as [r|] eqn:Hr.
  - assert (Hc : hasColumn raw x = true).
    { apply lookup_transformToGrid_is_Some. by eexists. }
    rewrite Hc, (lookup_row _ _ y _ Hr). by rewrite cellAt_transformToGrid.
  - destruct (hasColumn raw x) eqn:Hc; [|reflexivity].
    apply lookup_transformToGrid_is_Some in Hc as [r Hr']. congruence.
Qed.

Lemma lastAt_is_Some (raw : list WasmCell) (x y : Z) (c : WasmCell) :
  c ∈ raw → position c = mkPosition x y →
  ∃ d, lastAt raw x y = Some d ∧ d ∈ raw ∧ position d = mkPosition x y.
Proof.
  intros Hin Hpos. unfold lastAt.
  destruct (find _ (rev raw)) as [d|] eqn:Hf.
  - exists d. apply find_some in Hf as [Hd Hp].
    apply bool_decide_eq_true_1 in Hp.
    apply in_rev, list_elem_of_In in Hd. done.
  - exfalso. apply list_elem_of_In, in_rev in Hin.
    pose proof (find_none _ _ Hf _ Hin) as Hn. cbn in Hn.
    by rewrite (bool_decide_eq_true_2 _ Hpos) in Hn.
Qed.

(** X5: when the input holds a record for every address of a
    [width] by [height] rectangle, every read the grid component makes,
    [grid[column][row]] for [0 <= column < width] and
    [0 <= row < height], yields a cell, and that cell carries the
    address it is read at. *)
Theorem readCell_full_grid (raw : list WasmCell) (width height : Z)
    (column row : Z) :
  (∀ x y, 0 ≤ x < width → 0 ≤ y < height →
          ∃ c, c ∈ raw ∧ position c = mkPosition x y) →
  0 ≤ column < width → 0 ≤ row < height →
  ∃ c, readCell (transformToGrid raw) column row = Normal (Some c) ∧
       position c = mkPosition column row.
Proof.
  intros Hfull Hc Hr. destruct (Hfull column row Hc Hr) as (c & Hin & Hpos).
  destruct (lastAt_is_Some raw column row c Hin Hpos) as (d & Hd & _ & Hdp).
  exists d. split; [|exact Hdp].
  assert (Hcol : hasColumn raw column = true).
  { apply hasColumn_elem_of. exists c. split; [done|]. by rewrite Hpos. }
  apply lookup_transformToGrid_is_Some in Hcol as [r Hrow].
  unfold readCell. rewrite Hrow, (lookup_row _ _ row _ Hrow).
  by rewrite cellAt_transformToGrid, Hd.
Qed.

Lemma readCell_full_grid_witness :
  let raw := [mkCell (mkPosition 0 0) 4 PathingNone;
              mkCell (mkPosition 1 0) 9 Blocked] in
  (∀ x y, 0 ≤ x < 2 → 0 ≤ y < 1 →
          ∃ c, c ∈ raw ∧ position c = mkPosition x y) ∧
  0 ≤ 1 < 2 ∧ 0 ≤ 0 < 1 ∧
  ∃ c, readCell (transformToGrid raw) 1 0 = Normal (Some c) ∧
       position c = mkPosition 1 0.
Proof.
  intros raw.
  assert (Hfull : ∀ x y, 0 ≤ x < 2 → 0 ≤ y < 1 →
                         ∃ c, c ∈ raw ∧ position c = mkPosition x y).
  { intros x y Hx Hy. assert (y = 0) as -> by lia.
    assert (x = 0 ∨ x = 1) as [-> | ->] by lia.
    - exists (mkCell (mkPosition 0 0) 4 PathingNone).
      split; [apply list_elem_of_In; simpl; tauto | reflexivity].
    - exists (mkCell (mkPosition 1 0) 9 Blocked).
      split; [apply list_elem_of_In; simpl; tauto | reflexivity]. }
  assert (H1 : 0 ≤ 1 < 2) by lia.
  assert (H0 : 0 ≤ 0 < 1) by lia.
  split; [exact Hfull|]. split; [exact H1|]. split; [exact H0|].
  exact (readCell_full_grid raw 2 1 1 0 Hfull H1 H0).
Defined.

Lemma NoDup_fmap_elem_inj {A B} (f : A → B) (l : list A) (a b : A) :
  NoDup (f <$> l) → a ∈ l → b ∈ l → f a = f b → a = b.
Proof.
  induction l as [|c l IH]; intros Hnd Ha Hb Hf.
  - by apply elem_of_nil in Ha.
  - cbn in Hnd. apply NoDup_cons in Hnd as [Hc Hnd].
    apply elem_of_cons in Ha as [->|Ha]; apply elem_of_cons in Hb as [->|Hb].
    + reflexivity.
    + exfalso. apply Hc. rewrite Hf. by apply list_elem_of_fmap_2.
    + exfalso. apply Hc. rewrite <- Hf. by apply list_elem_of_fmap_2.
    + by apply IH.
Qed.

Lemma lastAt_Permutation (raw raw' : list WasmCell) (x y : Z) :
  raw ≡ₚ raw' → NoDup (position <$> raw) →
  lastAt raw x y = lastAt raw' x y.
Proof.
  intros Hp Hnd.
  destruct (lastAt raw x y) as [c|] eqn:Hl.
  - assert (Hin : c ∈ raw ∧ position c = mkPosition x y).
    { unfold lastAt in Hl. apply find_some in Hl as [Hc Hpos].
      apply in_rev, list_elem_of_In in Hc.
      by apply bool_decide_eq_true_1 in Hpos. }
    destruct Hin as [Hin Hpos].
    assert (Hin' : c ∈ raw') by (by rewrite <- Hp).
    destruct (lastAt_is_Some raw' x y c Hin' Hpos) as (d & Hd & Hdin & Hdp).
    rewrite Hd. f_equal. rewrite <- Hp in Hdin.
    apply (NoDup_fmap_elem_inj position raw); [done..|congruence].
  - destruct (lastAt raw' x y) as [d|] eqn:Hl'; [|reflexivity].
    exfalso. unfold lastAt in Hl'. apply find_some in Hl' as [Hd Hpos].
    apply in_rev, list_elem_of_In in Hd.
    apply bool_decide_eq_true_1 in Hpos. rewrite <- Hp in Hd.
    destruct (lastAt_is_Some raw x y d Hd Hpos) as (d' & Hd' & _).
    congruence.
Qed.

(** X6: when no two records of the input share a position, the grid
    does not depend on the order of the input: any rearrangement of the
    list reconstructs the same grid. *)
Theorem transformToGrid_Permutation (raw raw' : list WasmCell) :
  raw ≡ₚ raw' → NoDup (position <$> raw) →
  transformToGrid raw = transformToGrid raw'.
Proof.
  intros Hp Hnd. apply map_eq. intros x.
  assert (Hcol : hasColumn raw x = hasColumn raw' x).
  { apply eq_true_iff_eq. rewrite !hasColumn_elem_of.
    split; intros (c & Hin & Hc); exists c; split; try done.
    - by rewrite <- Hp.
    - by rewrite Hp. }
  destruct (transformToGrid raw !! x) as [r|] eqn:Hr;
    destruct (transformToGrid raw' !! x) as [r'|] eqn:Hr'.
  - f_equal. apply map_eq. intros y.
    rewrite (lookup_row _ _ y _ Hr), (lookup_row _ _ y _ Hr').
    rewrite !cellAt_transformToGrid. by apply lastAt_Permutation.
  - exfalso. assert (Hs : is_Some (transformToGrid raw !! x)) by by eexists.
    apply lookup_transformToGrid_is_Some in Hs. rewrite Hcol in Hs.
    apply lookup_transformToGrid_is_Some in Hs as [? ?]. congruence.
  - exfalso. assert (Hs : is_Some (transformToGrid raw' !! x)) by by eexists.
    apply lookup_transformToGrid_is_Some in Hs. rewrite <- Hcol in Hs.
    apply lookup_transformToGrid_is_Some in Hs as [? ?]. congruence.
  - reflexivity.
Qed.

Lemma transformToGrid_Permutation_witness :
  let a := mkCell (mkPosition 0 0) 4 PathingNone in
  let b := mkCell (mkPosition 0 1) 9 Path in
  ([a; b] ≡ₚ [b; a]) ∧ NoDup (position <$> [a; b]) ∧
  transformToGrid [a; b] = transformToGrid [b; a].
Proof.
  intros a b.
  assert (Hp : [a; b] ≡ₚ [b; a]) by apply perm_swap.
  assert (Hnd : NoDup (position <$> [a; b])).
  { apply (bool_decide_unpack _). vm_compute. exact I. }
  split; [exact Hp|]. split; [exact Hnd|].
  exact (transformToGrid_Permutation [a; b] [b; a] Hp Hnd).
Defined.

End GridViewFacts.

(** ** Runs of the user-event buffer *)

Module UserEventsRunsFacts.
Import UserEvents UserEventsRuns.

(** X7: over any run of clicks, hovers, reads and drains, no click is
    lost, duplicated or reordered: what the drains returned, followed by
    what is still queued, is the initial queue followed by the clicks of
    the run in arrival order. *)
Theorem clicks_conserved (ops : list Op) (s : UserEventsState) :
  drained ops s ++ userClicks (run ops s) = userClicks s ++ clicksOf ops.
Proof.
  revert s. induction ops as [|o ops IH]; intros s.
  - cbn. by rewrite app_nil_r.
  - unfold run in *. cbn [drained fold_left]. rewrite <- app_assoc, IH.
    destruct o; cbn; rewrite <- ?app_assoc; reflexivity.
Qed.

Lemma lastHover_fold (ops : list Op) (acc : option Position) :
  fold_left (λ a o, match o with OpHover p => Some p | _ => a end) ops acc
  = match lastHoverOf ops with
    | Some p => Some p
    | None => acc
    end.
Proof.
  unfold lastHoverOf. revert acc.
  induction ops as [|o ops IH]; intros acc.
  - reflexivity.
  - cbn [fold_left]. rewrite IH. rewrite (IH (match o with
                                               | OpHover p => Some p
                                               | _ => None
                                               end)).
    destruct (fold_left _ ops None); [reflexivity|].
    destruct o; reflexivity.
Qed.

(** X8: after any run, the hover value is the position of the last
    hover of the run, and the value held before the run when the run
    has no hover; clicks, reads and drains never touch it. *)
Theorem lastHovered_after_run (ops : list Op) (s : UserEventsState) :
  lastHovered (run ops s)
  = match lastHoverOf ops with
    | Some p => Some p
    | None => lastHovered s
    end.
Proof.
  rewrite <- lastHover_fold. unfold run. revert s.
  induction ops as [|o ops IH]; intros s.
  - reflexivity.
  - cbn [fold_left]. rewrite IH. destruct o; reflexivity.
Qed.

End UserEventsRunsFacts.

(** ** Grouping the raw letters, and what the triplets column shows *)

Module TripletsViewFacts.
Import Triplets TripletsView.

(** Induction on a list three elements at a time, as the grouping loop
    walks it. *)
Lemma list_ind_by_three {A} (P : list A → Prop) :
  P [] → (∀ a, P [a]) → (∀ a b, P [a; b]) →
  (∀ a b c l, P l → P (a :: b :: c :: l)) →
  ∀ l, P l.
Proof.
  intros H0 H1 H2 H3.
  assert (Hall : ∀ l, P l ∧ (∀ a, P (a :: l)) ∧ (∀ a b, P (a :: b :: l))).
  { induction l as [|x l (IH0 & IH1 & IH2)].
    - split; [exact H0|]. split; [exact H1 | exact H2].
    - split; [apply IH1|]. split; [intros a; apply IH2|].
      intros a b. by apply H3. }
  intros l. apply Hall.
Qed.

(** X9: grouping loses nothing: the letters of the triplets, read in
    order, are the raw letters, and the number of triplets is the raw
    length divided by three, rounded up. *)
Theorem groupTriplets_round_trip (rawTriplets : list Z) :
  concat (lettersOf <$> triplets (createTripletsState rawTriplets))
  = rawTriplets ∧
  total (createTripletsState rawTriplets)
  = (Z.of_nat (length rawTriplets) + 2) `div` 3.
Proof.
  unfold total, createTripletsState. cbn [triplets].
  induction rawTriplets as [| a | a b | a b c l [IHc IHl]]
    using list_ind_by_three.
  - split; reflexivity.
  - split; reflexivity.
  - split; reflexivity.
  - cbn [groupTriplets fmap list_fmap concat length].
    split.
    + rewrite IHc. reflexivity.
    + rewrite Nat2Z.inj_succ, IHl.
      replace (Z.of_nat (S (S (S (length l)))) + 2)
        with (Z.of_nat (length l) + 2 + 1 * 3) by lia.
      rewrite Z.div_add by lia. lia.
Qed.

(** X10: every triplet holds three letters exactly when the raw length
    is a multiple of three; otherwise a triplet with an [undefined]
    letter is built. *)
Theorem groupTriplets_complete (rawTriplets : list Z) :
  forallb complete (groupTriplets rawTriplets)
  = bool_decide (Z.of_nat (length rawTriplets) `mod` 3 = 0).
Proof.
  induction rawTriplets as [| a | a b | a b c l IH]
    using list_ind_by_three.
  - reflexivity.
  - reflexivity.
  - reflexivity.
  - cbn [groupTriplets forallb complete letter1 letter2 letter3 andb].
    rewrite IH. apply bool_decide_ext.
    replace (Z.of_nat (length (a :: b :: c :: l)))
      with (Z.of_nat (length l) + 1 * 3) by (cbn [length]; lia).
    by rewrite Z.mod_add by lia.
Qed.

(** X11: while the index is inside the sequence, [[next, ...future]] is
    the part of the sequence from the index on, every entry defined,
    and the number of remaining letters is three times its length, so
    it is positive. *)
Theorem nextAndFuture_in_range (s : TripletsState) (i : Z) :
  0 ≤ i < total s →
  let rest := drop (Z.to_nat i) (triplets s) in
  nextAndFuture (updateIndex i s) = Normal (Some <$> rest) ∧
  numberOfRemainingLetters (updateIndex i s) = 3 * Z.of_nat (length rest) ∧
  0 < numberOfRemainingLetters (updateIndex i s).
Proof.
  intros Hi rest. subst rest. unfold total in Hi.
  unfold nextAndFuture, next, future, numberOfRemainingLetters, updateIndex,
    arrayGet, arraySlice.
  cbn [triplets currentIndex].
  rewrite !bool_decide_eq_false_2 by lia.
  destruct (lookup_lt_is_Some_2 (triplets s) (Z.to_nat i)) as [t Ht]; [lia|].
  rewrite Ht, (drop_S _ _ _ Ht).
  replace (Z.to_nat (Z.min (i + 1) (Z.of_nat (length (triplets s)))))
    with (S (Z.to_nat i)) by lia.
  cbn [length fmap list_fmap]. rewrite length_drop.
  split; [reflexivity|]. split; lia.
Qed.

Lemma nextAndFuture_in_range_witness :
  let s := createTripletsState [1; 2; 3; 4; 5; 6; 7; 8; 9] in
  0 ≤ 1 < total s ∧
  nextAndFuture (updateIndex 1 s)
  = Normal [Some (mkTriplet (Some 4) (Some 5) (Some 6));
            Some (mkTriplet (Some 7) (Some 8) (Some 9))] ∧
  numberOfRemainingLetters (updateIndex 1 s) = 6.
Proof.
  intros s.
  assert (Hi : 0 ≤ 1 < total s)
    by (split; vm_compute; [discriminate | reflexivity]).
  split; [exact Hi|].
  pose proof (nextAndFuture_in_range s 1 Hi) as (Hn & Hr & _).
  split; [exact Hn | exact Hr].
Defined.

(** X12: once the index has reached the length of the sequence or
    passed it, [[next, ...future]] is the single entry [undefined], and
    the number of remaining letters is zero or negative: it is not
    clamped. *)
Theorem nextAndFuture_past_end (s : TripletsState) (i : Z) :
  total s ≤ i →
  nextAndFuture (updateIndex i s) = Normal [None] ∧
  numberOfRemainingLetters (updateIndex i s) = 3 * (total s - i) ∧
  numberOfRemainingLetters (updateIndex i s) ≤ 0.
Proof.
  unfold total. intros Hi.
  unfold nextAndFuture, next, future, numberOfRemainingLetters, updateIndex,
    arraySlice.
  cbn [triplets currentIndex].
  rewrite TripletsFacts.arrayGet_past_end by lia.
  rewrite bool_decide_eq_false_2 by lia.
  rewrite drop_ge by lia. repeat split; lia.
Qed.

Lemma nextAndFuture_past_end_witness :
  let s := createTripletsState [1; 2; 3; 4; 5; 6] in
  total s ≤ 3 ∧
  nextAndFuture (updateIndex 3 s) = Normal [None] ∧
  numberOfRemainingLetters (updateIndex 3 s) = 3 * (2 - 3).
Proof.
  intros s.
  assert (Hi : total s ≤ 3) by (vm_compute; discriminate).
  split; [exact Hi|].
  pose proof (nextAndFuture_past_end s 3 Hi) as (Hn & Hr & _).
  split; [exact Hn | exact Hr].
Defined.

End TripletsViewFacts.

(** ** Whole words, and words asked for too early *)

Module LetterWordFacts.
Import LetterTable.

Section WithSentinel.
Variable is_empty_cell : Z → bool.

(** The two table calls [getLetter] makes for a code. *)
Let callsFor (i : Z) : list TableCall := [GetLetterCall i; GetScoreCall i].

Lemma wordLog_no_empty (letters : list Z) :
  forallb (λ i, negb (is_empty_cell i)) letters = true →
  wordLog is_empty_cell letters = flat_map callsFor letters ∧
  firstEmpty is_empty_cell letters = None.
Proof.
  unfold firstEmpty. induction letters as [|i rest IH]; intros Hall.
  - split; reflexivity.
  - cbn in Hall. apply andb_true_iff in Hall as [Hi Hrest].
    apply negb_true_iff in Hi. destruct (IH Hrest) as [IHl IHf].
    cbn [wordLog find flat_map]. rewrite Hi, IHl, IHf. split; reflexivity.
Qed.

Lemma wordLog_first_empty (pre post : list Z) (e : Z) :
  forallb (λ i, negb (is_empty_cell i)) pre = true →
  is_empty_cell e = true →
  wordLog is_empty_cell (pre ++ e :: post) = flat_map callsFor pre ∧
  firstEmpty is_empty_cell (pre ++ e :: post) = Some e.
Proof.
  unfold firstEmpty. intros Hall He.
  induction pre as [|i rest IH].
  - cbn. rewrite He. split; reflexivity.
  - cbn in Hall. apply andb_true_iff in Hall as [Hi Hrest].
    apply negb_true_iff in Hi. destruct (IH Hrest) as [IHl IHf].
    cbn [app wordLog find flat_map]. rewrite Hi, IHl, IHf.
    split; reflexivity.
Qed.

Lemma getWord_unbound_cons (i : Z) (rest : list Z) :
  getWord is_empty_cell (i :: rest) None
  = (None, [],
     Throw (if is_empty_cell i then invalidLetterIndex i else JsTypeError)).
Proof.
  unfold getWord. rewrite LetterTableFacts.arrayMap_cons_run.
  unfold mbind, M_bind, bind.
  destruct (is_empty_cell i) eqn:Hi.
  - by rewrite (LetterTableFacts.getLetter_empty _ _ _ Hi).
  - by rewrite (LetterTableFacts.getLetter_unbound _ _ Hi).
Qed.

End WithSentinel.

(** X13: on a bound table, a word without an empty code resolves to one
    letter per code, in order: the letters carry the codes of the word
    and the characters and scores the table gives for them, and the
    table is asked for the character and then the score of each code,
    code by code. *)
Theorem getWord_resolves_every_code
    (is_empty_cell : Z → bool) (letters : list Z) (t : LettersTable) :
  forallb (λ i, negb (is_empty_cell i)) letters = true →
  ∃ word,
    outcome (getWord is_empty_cell letters (bound t)) = Normal word ∧
    index <$> word = letters ∧
    char <$> word = try_get_letter_char t <$> letters ∧
    score <$> word = try_get_letter_score t <$> letters ∧
    callLog (getWord is_empty_cell letters (bound t))
    = flat_map (λ i, [GetLetterCall i; GetScoreCall i]) letters.
Proof.
  intros Hall.
  destruct (wordLog_no_empty is_empty_cell letters Hall) as [Hlog Hfirst].
  exists (letterOf t <$> letters).
  rewrite LetterTableFacts.getWord_bound, Hfirst, Hlog.
  unfold outcome, callLog. cbn [fst snd].
  rewrite <- !list_fmap_compose.
  repeat split; try reflexivity.
  clear. induction letters as [|i rest IH]; [reflexivity|].
  cbn. by f_equal.
Qed.

Lemma getWord_resolves_every_code_witness :
  forallb (λ i, negb (zeroIsEmpty i)) [5; 9; 7] = true ∧
  ∃ word,
    outcome (getWord zeroIsEmpty [5; 9; 7] (bound smallTable)) = Normal word ∧
    index <$> word = [5; 9; 7] ∧
    char <$> word = [Some "e"%string; None; Some "g"%string].
Proof.
  split; [reflexivity|].
  destruct (getWord_resolves_every_code zeroIsEmpty [5; 9; 7] smallTable
              eq_refl) as (word & Hw & Hi & Hc & _).
  exists word. split; [exact Hw|]. split; [exact Hi | exact Hc].
Defined.

(** X14: before [initLettersTableContext] has run, [getWord] returns
    letters only for the empty word.  For any other word it throws at
    its first code without reaching a table: the "Invalid letter index"
    error when that code is empty, a [TypeError] otherwise. *)
Theorem getWord_before_init
    (is_empty_cell : Z → bool) (i : Z) (rest : list Z) :
  getWord is_empty_cell [] None = (None, [], Normal []) ∧
  outcome (getWord is_empty_cell (i :: rest) None)
  = Throw (if is_empty_cell i
           then JsError ("Invalid letter index in word: " +:+ pretty i)
           else JsTypeError) ∧
  callLog (getWord is_empty_cell (i :: rest) None) = [] ∧
  finalState (getWord is_empty_cell (i :: rest) None) = None.
Proof.
  rewrite getWord_unbound_cons. repeat split; reflexivity.
Qed.

(** X15: on a bound table, a word is resolved up to its first empty
    code and no further: the table is asked about the codes before it
    only, the codes after it are never looked at, the error names that
    code, and the context is left as it was. *)
Theorem getWord_stops_at_first_empty
    (is_empty_cell : Z → bool) (pre post : list Z) (e : Z)
    (t : LettersTable) :
  forallb (λ i, negb (is_empty_cell i)) pre = true →
  is_empty_cell e = true →
  getWord is_empty_cell (pre ++ e :: post) (bound t)
  = (bound t,
     flat_map (λ i, [GetLetterCall i; GetScoreCall i]) pre,
     Throw (JsError ("Invalid letter index in word: " +:+ pretty e))).
Proof.
  intros Hall He.
  destruct (wordLog_first_empty is_empty_cell pre post e Hall He)
    as [Hlog Hfirst].
  by rewrite LetterTableFacts.getWord_bound, Hfirst, Hlog.
Qed.

Lemma getWord_stops_at_first_empty_witness :
  forallb (λ i, negb (zeroIsEmpty i)) [5; 7] = true ∧
  zeroIsEmpty 0 = true ∧
  callLog (getWord zeroIsEmpty ([5; 7] ++ 0 :: [9; 0; 5]) (bound smallTable))
  = [GetLetterCall 5; GetScoreCall 5; GetLetterCall 7; GetScoreCall 7].
Proof.
  split; [reflexivity|]. split; [reflexivity|].
  exact (f_equal callLog
           (getWord_stops_at_first_empty zeroIsEmpty [5; 7] [9; 0; 5] 0
              smallTable eq_refl eq_refl)).
Defined.

End LetterWordFacts.

(** ** Frames that succeed, and whole sessions *)

Module SessionFacts.
Import GridCore UserEvents Triplets Slices Game Session.

Lemma reportedDeltas_app (l1 l2 : list HostCall) :
  reportedDeltas (l1 ++ l2) = reportedDeltas l1 ++ reportedDeltas l2.
Proof. unfold reportedDeltas. apply omap_app. Qed.

Lemma requestedFrames_app (l1 l2 : list HostCall) :
  requestedFrames (l1 ++ l2)
  = (requestedFrames l1 + requestedFrames l2)%nat.
Proof. unfold requestedFrames. by rewrite omap_app, List.length_app. Qed.

Lemma deliveredClicks_app (l1 l2 : list HostCall) :
  deliveredClicks (l1 ++ l2) = deliveredClicks l1 ++ deliveredClicks l2.
Proof. unfold deliveredClicks. by rewrite omap_app, concat_app. Qed.


Section Loop.
Context {E : Type} `{WasmGame E}.

(** The host's loop, one stamp unfolded. *)
Lemma runFrames_cons (now : Z) (rest : list Z) (g : GameState E) :
  runFrames (now :: rest) g =
  match tick now g with
  | (g1, t1, Normal _) =>
      match runFrames rest g1 with (g2, t2, c) => (g2, t1 ++ t2, c) end
  | (g1, t1, Throw x) => (g1, t1, Throw x)
  end.
Proof. reflexivity. Qed.

(** The parts of a frame's result that do not depend on how the engine
    completes. *)
Lemma tick_log_shape (now : Z) (g : GameState E) :
  ∃ hover,
    callLog (tick now g)
    = TickCall (if bool_decide (lastFrame g = 0) then 0
                else now - lastFrame g)
        (userClicks (userEvents g)) hover
      :: match outcome (tick now g) with
         | Normal _ => [RequestAnimationFrame]
         | Throw _ => []
         end.
Proof.
  exists (lastHovered (userEvents g)). rewrite GameFacts.tick_run.
  destruct (wasm_tick _ _ _ _) as [e' [snapshot|x]]; reflexivity.
Qed.

Lemma tick_keeps (now : Z) (g : GameState E) :
  goldenState (finalState (tick now g)) = goldenState g ∧
  clockMax (clock (finalState (tick now g))) = clockMax (clock g) ∧
  triplets (tripletsState (finalState (tick now g)))
  = triplets (tripletsState g) ∧
  lastHovered (userEvents (finalState (tick now g)))
  = lastHovered (userEvents g) ∧
  userClicks (userEvents (finalState (tick now g))) = [].
Proof.
  rewrite GameFacts.tick_run.
  destruct (wasm_tick _ _ _ _) as [e' [snapshot|x]];
    repeat split; reflexivity.
Qed.

Lemma runSession_keeps (ops : list SessionOp) (pending : bool)
    (g : GameState E) :
  goldenState (runSession ops pending g).1 = goldenState g ∧
  clockMax (clock (runSession ops pending g).1) = clockMax (clock g) ∧
  triplets (tripletsState (runSession ops pending g).1)
  = triplets (tripletsState g).
Proof.
  revert pending g. induction ops as [|o ops IH]; intros pending g.
  - repeat split; reflexivity.
  - destruct o as [p|p|now]; cbn [runSession].
    + apply (IH pending (setUserEvents (click p (userEvents g)) g)).
    + apply (IH pending (setUserEvents (hover p (userEvents g)) g)).
    + destruct pending; [|apply IH]. cbn [fst].
      destruct (tick_keeps now g) as (Hg & Hc & Ht & _).
      destruct (IH (match outcome (tick now g) with
                    | Normal _ => true
                    | Throw _ => false
                    end) (finalState (tick now g))) as (IHg & IHc & IHt).
      rewrite IHg, IHc, IHt, Hg, Hc, Ht. repeat split; reflexivity.
Qed.


End Loop.

(** X16: when the engine's step returns a snapshot, the frame ends
    normally with every slice replaced from it: the clock's remaining
    time, the grid rebuilt from the snapshot's cells, the found words,
    and the score and triplet index read from the engine as it is after
    the step; the click queue is empty, the clock's maximum is kept, and
    exactly one next frame is requested, after the single engine call. *)
Theorem tick_engine_success {E : Type} `{WasmGame E}
    (g : GameState E) (now : Z) (e' : E) (snapshot : Snapshot) :
  let delta := if bool_decide (lastFrame g = 0) then 0
               else now - lastFrame g in
  let clicks := userClicks (userEvents g) in
  let hover := lastHovered (userEvents g) in
  wasm_tick (wasmGame g) delta clicks hover = (e', Normal snapshot) →
  let r := tick now g in
  outcome r = Normal tt ∧
  callLog r = [TickCall delta clicks hover; RequestAnimationFrame] ∧
  clockRemaining (clock (finalState r)) = clock_remaining_ms snapshot ∧
  clockMax (clock (finalState r)) = clockMax (clock g) ∧
  grid (finalState r) = Some (transformToGrid (snapshot_grid snapshot)) ∧
  score (finalState r) = wasm_score e' ∧
  currentIndex (tripletsState (finalState r)) = triplets_current_index e' ∧
  foundWords (finalState r) = found_words snapshot ∧
  userClicks (userEvents (finalState r)) = [] ∧
  wasmGame (finalState r) = e'.
Proof.
  intros delta clicks hover Hstep r. subst r.
  pose proof (GameFacts.tick_run now g) as Hrun. cbv zeta in Hrun.
  fold delta clicks hover in Hrun. rewrite Hstep in Hrun. rewrite Hrun.
  repeat split; reflexivity.
Qed.

Lemma tick_engine_success_witness :
  let e : Scripted := [Normal (sampleSnapshot 19984); Throw JsTypeError] in
  let g := setUserEvents (click (mkPosition 2 3) createUserEventsState)
             (createGameState e).1 in
  wasm_tick (wasmGame g) 0 [mkPosition 2 3] None
  = ([Throw JsTypeError], Normal (sampleSnapshot 19984)) ∧
  clockRemaining (clock (finalState (tick 1000 g))) = 19984 ∧
  score (finalState (tick 1000 g)) = 1 ∧
  userClicks (userEvents (finalState (tick 1000 g))) = [].
Proof.
  intros e g.
  assert (Hstep : wasm_tick (wasmGame g) 0 [mkPosition 2 3] None
                  = ([Throw JsTypeError], Normal (sampleSnapshot 19984)))
    by reflexivity.
  split; [exact Hstep|].
  pose proof (tick_engine_success g 1000 _ _ Hstep)
    as (_ & _ & Hc & _ & _ & Hs & _ & _ & Hu & _).
  exact (conj Hc (conj Hs Hu)).
Defined.

(** X17: what [createGameState] copies from the engine is fixed for the
    session: after any clicks, hovers and frames, the golden-word test
    still answers from the golden word the engine had at creation, and
    the clock's maximum, the golden word's score and the triplet
    sequence are those of creation; frames only move the index. *)
Theorem session_keeps_creation_values {E : Type} `{WasmGame E}
    (e : E) (ops : list SessionOp) (l : Z) :
  let final := (runSession ops true (createGameState e).1).1 in
  isGolden (goldenState final) l = bool_decide (l ∈ golden_word e) ∧
  goldenWordScore (goldenState final) = golden_word_score e ∧
  clockMax (clock final) = clock_max_ms e ∧
  triplets (tripletsState final) = groupTriplets (wasm_triplets e).
Proof.
  intros final. subst final.
  destruct (runSession_keeps ops true (createGameState e).1)
    as (Hg & Hc & Ht).
  unfold isGolden. rewrite Hg, Hc, Ht. repeat split; reflexivity.
Qed.

(** X18: over any session, each click reaches the engine once and in
    arrival order: the clicks handed over by the frames, followed by
    those still queued, are the clicks queued at the start followed by
    the clicks of the session.  A frame that throws has still consumed
    its clicks, and clicks made after it stay queued. *)
Theorem clicks_delivered_once {E : Type} `{WasmGame E}
    (ops : list SessionOp) (pending : bool) (g : GameState E) :
  deliveredClicks (runSession ops pending g).2
  ++ userClicks (userEvents (runSession ops pending g).1)
  = userClicks (userEvents g) ++ sessionClicks ops.
Proof.
  revert pending g. induction ops as [|o ops IH]; intros pending g.
  - cbn. by rewrite app_nil_r.
  - destruct o as [p|p|now]; cbn [runSession sessionClicks omap].
    + rewrite IH. cbn. by rewrite <- app_assoc.
    + rewrite IH. reflexivity.
    + destruct pending; [|apply IH]. cbn [fst snd].
      destruct (tick_log_shape now g) as [hover Hlog].
      destruct (tick_keeps now g) as (_ & _ & _ & _ & Hq).
      rewrite deliveredClicks_app, <- app_assoc, IH, Hq, Hlog.
      unfold deliveredClicks. cbn [omap concat app].
      destruct (outcome (tick now g)); cbn; by rewrite ?app_nil_r.
Qed.



(** X20: when the stamps never go back from the stored one, no elapsed
    time handed to the engine is negative. *)
Theorem frames_deltas_nonnegative {E : Type} `{WasmGame E}
    (stamps : list Z) (g : GameState E) :
  nonDecreasing (lastFrame g) stamps = true →
  Forall (λ d, 0 ≤ d) (reportedDeltas (callLog (runFrames stamps g))).
Proof.
  revert g. induction stamps as [|now rest IH]; intros g Hmono.
  - constructor.
  - cbn in Hmono. apply andb_true_iff in Hmono as [Hnow Hrest].
    apply bool_decide_eq_true_1 in Hnow.
    rewrite runFrames_cons.
    pose proof (GameFacts.tick_reportedDeltas now g) as Hd.
    pose proof (GameFacts.tick_lastFrame now g) as Hl.
    assert (Hdelta : 0 ≤ (if bool_decide (lastFrame g = 0) then 0
                          else now - lastFrame g))
      by (destruct (bool_decide _); lia).
    destruct (tick now g) as [[g1 t1] [[]|x]];
      unfold callLog, finalState in *; cbn [fst snd] in *.
    + rewrite <- Hl in Hrest. specialize (IH g1 Hrest).
      destruct (runFrames rest g1) as [[g2 t2] c]; cbn [fst snd] in *.
      rewrite reportedDeltas_app, Hd. apply Forall_app. split; [|exact IH].
      by repeat constructor.
    + rewrite Hd. by repeat constructor.
Qed.

Lemma frames_deltas_nonnegative_witness :
  let e : Scripted := [Normal (sampleSnapshot 20000);
                       Normal (sampleSnapshot 19984)] in
  let g := (createGameState e).1 in
  nonDecreasing (lastFrame g) [1000; 1000; 1016] = true ∧
  Forall (λ d, 0 ≤ d)
    (reportedDeltas (callLog (runFrames [1000; 1000; 1016] g))).
Proof.
  intros e g. split; [reflexivity|].
  exact (frames_deltas_nonnegative [1000; 1000; 1016] g eq_refl).
Defined.

(** X21: the host's loop makes one engine call per frame until a call
    throws and none after it: a run that ends normally has made one
    call and one frame request per stamp; a run that ends with a throw
    has made exactly one call more than frame requests, never more
    calls than stamps, and the throwing call is the last event. *)
Theorem runFrames_stops_at_throw {E : Type} `{WasmGame E}
    (stamps : list Z) (g : GameState E) :
  let r := runFrames stamps g in
  let calls := length (reportedDeltas (callLog r)) in
  match outcome r with
  | Normal _ =>
      calls = length stamps ∧ requestedFrames (callLog r) = length stamps
  | Throw _ =>
      calls = S (requestedFrames (callLog r)) ∧
      (calls ≤ length stamps)%nat ∧
      ∃ d c h, last (callLog r) = Some (TickCall d c h)
  end.
Proof.
  cbv zeta. revert g. induction stamps as [|now rest IH]; intros g.
  - cbn. split; reflexivity.
  - rewrite runFrames_cons.
    destruct (tick_log_shape now g) as [hover Hlog].
    destruct (tick now g) as [[g1 t1] [[]|x]];
      unfold callLog, finalState, outcome in *; cbn [fst snd] in *;
      subst t1.
    + specialize (IH g1).
      destruct (runFrames rest g1) as [[g2 t2] [[]|y]]; cbn [fst snd] in *;
        unfold reportedDeltas, requestedFrames in *.
      * destruct IH as [IHc IHr]. cbn. rewrite IHc, IHr. split; reflexivity.
      * destruct IH as (IHc & IHle & d & c & h & IHlast).
        cbn. rewrite IHc. split; [reflexivity|]. split; [lia|].
        exists d, c, h. destruct t2 as [|ev t2]; [discriminate IHlast|].
        exact IHlast.
    + cbn. split; [reflexivity|]. split; [lia|]. by eexists _, _, _.
Qed.

End SessionFacts.
